(** * sigexport: ingestion, normalisation and group metadata

    A shallow embedding of [sigexport/data.py] ([fetch_data]) and of
    [sigexport/main.py] ([main], [export_channel_metadata]), followed by the
    properties of the ingestion and cross-reference pipeline.

    Conventions of the embedding.
    - A nullable SQL column or Python value is an [option]; [None] is
      Python's [None].
    - A Python [dict] is an insertion-ordered association list with unique
      keys (module [Dict]).
    - Effects (log lines, terminal messages, SQL statements, files written)
      are recorded in order in a trace; an exception leaves the trace
      written so far in place, as in Python.
    - The JSON decoder, the key recovery of [sigexport.crypto], the clock
      and the file system probes are taken as section variables: the
      theorems hold for every behaviour of these collaborators.
    - The store is taken as readable: the two queries yield their rows, and
      the directories and files of an export can be created. A failure of
      SQLCipher or of the file system is outside the model. *)

From Stdlib Require Import String Ascii List Bool ZArith Lia.
From Stdlib Require Import Sorted Permutation.
Import ListNotations.
Open Scope string_scope.

Set Implicit Arguments.

(** ** Python values and helpers *)

Module Py.

(** [s.split(sep)] for a one-character separator. *)
Fixpoint split (sep : ascii) (s : string) : list string :=
  match s with
  | EmptyString => [EmptyString]
  | String c s' =>
      if Ascii.eqb c sep then EmptyString :: split sep s'
      else match split sep s' with
           | h :: t => String c h :: t
           | [] => [String c EmptyString]
           end
  end.

(** [x in l] for a list of strings [l]. *)
Definition str_in (x : string) (l : list string) : bool :=
  existsb (String.eqb x) l.

(** [x in l] when [x] may be [None] and [l] holds strings only. *)
Definition opt_in (x : option string) (l : list string) : bool :=
  match x with
  | Some s => str_in s l
  | None => false
  end.

(** Truth value of a string and of an optional integer. *)
Definition truthy_str (s : string) : bool :=
  negb (String.eqb s "").

Definition truthy_oint (z : option Z) : bool :=
  match z with
  | Some z => negb (Z.eqb z 0)
  | None => false
  end.

(** [a == b] on optional strings. *)
Definition ostr_eqb (a b : option string) : bool :=
  match a, b with
  | Some x, Some y => String.eqb x y
  | None, None => true
  | _, _ => false
  end.

(** [str(x)] inside an f-string, for an optional string. *)
Definition fmt (x : option string) : string :=
  match x with
  | Some s => s
  | None => "None"
  end.

Definition tab : string := String (ascii_of_nat 9) EmptyString.
Definition nl : string := String (ascii_of_nat 10) EmptyString.
Definition dquote : string := String (ascii_of_nat 34) EmptyString.

(** [sorted(l)] for a list of strings. *)
Fixpoint insert_sorted (x : string) (l : list string) : list string :=
  match l with
  | [] => [x]
  | y :: l' => if String.leb x y then x :: l else y :: insert_sorted x l'
  end.

Definition sorted (l : list string) : list string :=
  fold_right insert_sorted [] l.

End Py.

(** ** Insertion-ordered dictionaries *)

Module Dict.
Section Dict.
Variables K V : Type.
Variable eqb : K -> K -> bool.

Definition t := list (K * V).

Definition empty : t := [].

(** [d.get(k)] / [d[k]] *)
Fixpoint get (k : K) (d : t) : option V :=
  match d with
  | [] => None
  | (k', v) :: d' => if eqb k k' then Some v else get k d'
  end.

(** [k in d] *)
Definition mem (k : K) (d : t) : bool :=
  match get k d with
  | Some _ => true
  | None => false
  end.

(** [d[k] = v]: an existing key keeps its position. *)
Fixpoint set (k : K) (v : V) (d : t) : t :=
  match d with
  | [] => [(k, v)]
  | (k', v') :: d' =>
      if eqb k k' then (k', v) :: d' else (k', v') :: set k v d'
  end.

(** In-place update of the value stored under [k]. *)
Fixpoint update (k : K) (f : V -> V) (d : t) : t :=
  match d with
  | [] => []
  | (k', v') :: d' =>
      if eqb k k' then (k', f v') :: d' else (k', v') :: update k f d'
  end.

Definition keys (d : t) : list K := map fst d.
Definition values (d : t) : list V := map snd d.
Definition items (d : t) : list (K * V) := d.

End Dict.
End Dict.

(** ** Data model *)

(** [models.Contact] *)
Record Contact := mkContact {
  c_id : string;
  c_serviceId : option string;
  c_name : option string;
  c_number : option string;
  c_profile_name : option string;
  c_members : list string;
  c_is_group : bool
}.

(** Decoded JSON documents ([json.loads]); an object is the Python [dict]
    it decodes to. *)
#[warnings="-register-all"] Inductive json :=
| JNull
| JBool (b : bool)
| JInt (z : Z)
| JFloat (repr : string)
| JStr (s : string)
| JArr (l : list json)
| JObj (fields : list (string * json)).

(** [models.RawMessage] *)
Record RawMessage := mkRawMessage {
  m_conversation_id : string;
  m_id : string;
  m_type : option string;
  m_body : option string;
  m_source : option string;
  m_timestamp : option Z;
  m_sent_at : option Z;
  m_server_timestamp : option Z;
  m_has_attachments : option Z;
  m_attachments : json;
  m_read_status : option Z;
  m_seen_status : option Z;
  m_call_history : json;
  m_reactions : json;
  m_sticker : json;
  m_quote : json
}.

(** [models.Contacts] and [models.Convos] *)
Definition Contacts := Dict.t string Contact.
Definition Convos := Dict.t string (list RawMessage).

(** A row of
    [SELECT type, id, serviceId, e164, name, profileName, members
     FROM conversations]. *)
Record ConvRow := mkConvRow {
  cr_type : option string;
  cr_id : string;
  cr_serviceId : option string;
  cr_e164 : option string;
  cr_name : option string;
  cr_profileName : option string;
  cr_members : option string
}.

(** A row of
    [SELECT conversationId, type, json, id, body, sourceServiceId, timestamp,
     sent_at, serverTimestamp, hasAttachments, readStatus, seenStatus,
     expireTimer FROM messages ORDER BY sent_at]. *)
Record MsgRow := mkMsgRow {
  mr_conversationId : option string;
  mr_type : option string;
  mr_json : option string;
  mr_id : string;
  mr_body : option string;
  mr_sourceServiceId : option string;
  mr_timestamp : option Z;
  mr_sent_at : option Z;
  mr_serverTimestamp : option Z;
  mr_hasAttachments : option Z;
  mr_readStatus : option Z;
  mr_seenStatus : option Z;
  mr_expireTimer : option Z
}.

(** The rows the two queries return, in the order the cursor yields them. *)
Record Store := mkStore {
  conversations : list ConvRow;
  messages : list MsgRow
}.

(** A path is kept as the expression that builds it: the sequence of the
    operands joined with [/]. It names the argument of a call; it is not a
    location resolved on a disk. *)
Definition path := list string.

Definition pdiv (p : path) (c : string) : path := (p ++ [c])%list.

(** ** Group metadata documents *)

Record MemberMeta := mkMemberMeta {
  mm_name : option string;
  mm_display_name : option string;
  mm_number : option string;
  mm_other_groups : list (option string)
}.

Record GroupMeta := mkGroupMeta {
  gm_name : option string;
  gm_exported_by : option string;
  gm_exported_on : string;
  gm_members : list MemberMeta
}.

Record FlatRow := mkFlatRow {
  fr_group_name : option string;
  fr_exported_by : option string;
  fr_exported_on : string;
  fr_num_shared_groups : nat;
  fr_name : option string;
  fr_display_name : option string;
  fr_number : option string;
  fr_other_groups : list (option string)
}.

(** ** Exceptions, effects and the monad of the embedding *)

Inductive exn :=
| Exit (code : Z)
| JSONDecodeError (msg doc : string) (pos : Z)
| TypeError (msg : string)
| AttributeError (msg : string)
| KeyError (key : string)
| IndexError (msg : string)
| ValueError (msg : string)
| OtherError (msg : string).

Inductive outcome (A : Type) :=
| Return (a : A)
| Raised (e : exn).
Arguments Return {A} a.
Arguments Raised {A} e.

Inductive event :=
| EvLog (msg : string)
| EvSecho (msg : string)
| EvSechoDecryptFailed (e : exn)
| EvConnect (db_file : path)
| EvExecute (sql : string)
| EvMakedirs (dir : path)
| EvOpenW (file : path)
| EvWriteJson (file : path) (doc : GroupMeta)
| EvWriteCsv (file : path) (fieldnames : list string) (rows : list FlatRow).

(** The observable state: what has been done so far, and how many times the
    clock has been read. *)
Record world := mkWorld {
  trace : list event;
  clock : nat
}.

Definition M (A : Type) : Type := world -> world * outcome A.

Definition ret {A} (a : A) : M A := fun w => (w, Return a).

Definition raise {A} (e : exn) : M A := fun w => (w, Raised e).

Definition bind {A B} (m : M A) (k : A -> M B) : M B :=
  fun w =>
    match m w with
    | (w', Return a) => k a w'
    | (w', Raised e) => (w', Raised e)
    end.

Definition emit (e : event) : M unit :=
  fun w => (mkWorld (trace w ++ [e])%list (clock w), Return tt).

Definition lift {A} (o : outcome A) : M A := fun w => (w, o).

Declare Scope py_scope.
Delimit Scope py_scope with py.
Notation "x <- m ;; k" := (bind m (fun x => k))
  (at level 100, m at next level, right associativity) : py_scope.
Notation "m ;; k" := (bind m (fun _ => k))
  (at level 100, right associativity) : py_scope.
Open Scope py_scope.

(** [for x in l: body x acc] with an accumulator. *)
Fixpoint foldM {A S} (body : A -> S -> M S) (l : list A) (acc : S) : M S :=
  match l with
  | [] => ret acc
  | x :: l' => acc' <- body x acc ;; foldM body l' acc'
  end.

(** [for x in l: body x] *)
Fixpoint forM_ {A} (body : A -> M unit) (l : list A) : M unit :=
  match l with
  | [] => ret tt
  | x :: l' => body x ;; forM_ body l'
  end.

(** [[f x for x in l]] *)
Fixpoint mapM {A B} (f : A -> M B) (l : list A) : M (list B) :=
  match l with
  | [] => ret []
  | x :: l' => y <- f x ;; ys <- mapM f l' ;; ret (y :: ys)
  end.

Definition initial : world := mkWorld [] 0.

(** ** Ingestion: [sigexport/data.py] *)

Definition log (msg : string) : M unit := emit (EvLog msg).
Definition secho (msg : string) : M unit := emit (EvSecho msg).
Definition execute (sql : string) : M unit := emit (EvExecute sql).

(** The five statements that configure the cipher session. *)
Definition pragma_key (key : string) : string :=
  "PRAGMA KEY = " ++ Py.dquote ++ "x'" ++ key ++ "'" ++ Py.dquote.
Definition pragma_page_size : string := "PRAGMA cipher_page_size = 4096".
Definition pragma_kdf_iter : string := "PRAGMA kdf_iter = 64000".
Definition pragma_hmac : string := "PRAGMA cipher_hmac_algorithm = HMAC_SHA512".
Definition pragma_kdf : string :=
  "PRAGMA cipher_kdf_algorithm = PBKDF2_HMAC_SHA512".

Definition query_conversations : string :=
  "SELECT type, id, serviceId, e164, name, profileName, members FROM conversations".
Definition query_messages : string :=
  "SELECT conversationId, type, json, id, body, sourceServiceId, timestamp, sent_at, serverTimestamp, hasAttachments, readStatus, seenStatus, expireTimer FROM messages ORDER BY sent_at".

(** Name of the Python type of a decoded document, as it appears in an
    [AttributeError]. *)
Definition py_type_name (j : json) : string :=
  match j with
  | JNull => "NoneType"
  | JBool _ => "bool"
  | JInt _ => "int"
  | JFloat _ => "float"
  | JStr _ => "str"
  | JArr _ => "list"
  | JObj _ => "dict"
  end.

(** [jsonLoaded.get(k, default)]; only a [dict] has the method. *)
Definition json_get (j : json) (k : string) (default : json) : M json :=
  match j with
  | JObj fields =>
      match Dict.get String.eqb k fields with
      | Some v => ret v
      | None => ret default
      end
  | _ => raise (AttributeError
                  ("'" ++ py_type_name j ++ "' object has no attribute 'get'"))
  end.

(** Lines 50-63: the [Contact] built from a conversation row. *)
Definition contact_of_row (r : ConvRow) : Contact :=
  let members :=
    match cr_members r with
    | Some s => if Py.truthy_str s then Py.split " " s else []
    | None => []
    end in
  let is_group := Py.ostr_eqb (cr_type r) (Some "group") in
  mkContact (cr_id r) (cr_serviceId r) (cr_name r) (cr_e164 r)
            (cr_profileName r) members is_group.

(** Lines 64-65: the one-time name fallback. *)
Definition name_fallback (c : Contact) : Contact :=
  match c_name c with
  | None =>
      mkContact (c_id c) (c_serviceId c) (c_profile_name c) (c_number c)
                (c_profile_name c) (c_members c) (c_is_group c)
  | Some _ => c
  end.

(** Line 35: the allow-list of chat names. *)
Definition chats_list_of (chats : string) : list string :=
  if (0 <? String.length chats)%nat then Py.split "," chats else [].

(** Line 67: is the conversation of this row retained? *)
Definition chat_selected (chats : string) (chats_list : list string)
    (r : ConvRow) : bool :=
  negb (Py.truthy_str chats)
  || (Py.opt_in (cr_name r) chats_list
      || Py.opt_in (cr_profileName r) chats_list).

(** Lines 50-68: what one conversation row does to the two dictionaries. *)
Definition load_step (chats : string) (chats_list : list string)
    (r : ConvRow) (acc : Contacts * Convos) : Contacts * Convos :=
  let '(contacts, convos) := acc in
  let cid := cr_id r in
  let contacts := Dict.set String.eqb cid (contact_of_row r) contacts in
  let contacts := Dict.update String.eqb cid name_fallback contacts in
  let convos :=
    if chat_selected chats chats_list r
    then Dict.set String.eqb cid [] convos
    else convos in
  (contacts, convos).

Definition loading_message (r : ConvRow) : string :=
  Py.tab ++ "Loading SQL results for: " ++ Py.fmt (cr_name r)
  ++ ", aka " ++ Py.fmt (cr_profileName r).

(** Lines 49-68: the body of the first loop. *)
Definition load_conversation (chats : string) (chats_list : list string)
    (r : ConvRow) (acc : Contacts * Convos) : M (Contacts * Convos) :=
  log (loading_message r) ;;
  ret (load_step chats chats_list r acc).

(** Line 77: [type in ["keychange", "profile-change", None]] *)
Definition excluded_type (t : option string) : bool :=
  match t with
  | Some s => Py.str_in s ["keychange"; "profile-change"]
  | None => true
  end.

(** Lines 102-103 read on their own: the Conversation Pruner. *)
Definition prune (include_empty : bool) (convos : Convos) : Convos :=
  if negb include_empty
  then filter (fun kv => 0 <? length (snd kv))%nat (Dict.items convos)
  else convos.

Section Ingestion.

(** [json.loads] on a string. *)
Variable json_loads : string -> outcome json.

(** [crypto.get_key(source_dir, password)] *)
Variable get_key : path -> option string -> outcome string.

(** [json.loads(result[2])]: a NULL column is not a string. *)
Definition decode_column (doc : option string) : outcome json :=
  match doc with
  | Some s => json_loads s
  | None =>
      Raised (TypeError
        "the JSON object must be str, bytes or bytearray, not NoneType")
  end.

Definition loads_column (doc : option string) : M json :=
  lift (decode_column doc).

(** Lines 73-100: the body of the second loop. *)
Definition ingest_row (include_disappearing : bool) (r : MsgRow)
    (convos : Convos) : M Convos :=
  let cid := mr_conversationId r in
  let type := mr_type r in
  jsonLoaded <- loads_column (mr_json r) ;;
  match cid with
  | Some cid =>
      if Py.truthy_str cid && Dict.mem String.eqb cid convos then
        if excluded_type type then ret convos
        else
          let expireTimer := mr_expireTimer r in
          if Py.truthy_oint expireTimer && negb include_disappearing
          then ret convos
          else
            attachments <- json_get jsonLoaded "attachments" (JArr []) ;;
            call_history <- json_get jsonLoaded "call_history" JNull ;;
            reactions <- json_get jsonLoaded "reactions" (JArr []) ;;
            sticker <- json_get jsonLoaded "sticker" JNull ;;
            quote <- json_get jsonLoaded "quote" JNull ;;
            let con :=
              mkRawMessage cid (mr_id r) type (mr_body r)
                (mr_sourceServiceId r) (mr_timestamp r) (mr_sent_at r)
                (mr_serverTimestamp r) (mr_hasAttachments r) attachments
                (mr_readStatus r) (mr_seenStatus r) call_history reactions
                sticker quote in
            ret (Dict.update String.eqb cid (fun l => l ++ [con])%list convos)
      else ret convos
  | None => ret convos
  end.

(** Lines 25-30: the key is given or recovered. *)
Definition resolve_key (source_dir : path) (password key : option string)
    : M string :=
  match key with
  | Some k => ret k
  | None =>
      match get_key source_dir password with
      | Return k => ret k
      | Raised e => emit (EvSechoDecryptFailed e) ;; raise (Exit 1)
      end
  end.

Definition fetch_data (db : Store) (source_dir : path)
    (password key : option string) (chats : string)
    (include_empty include_disappearing : bool) : M (Convos * Contacts) :=
  let db_file := pdiv (pdiv source_dir "sql") "db.sqlite" in
  key <- resolve_key source_dir password key ;;
  log ("Fetching data from " ++ String.concat "/" db_file ++ Py.nl) ;;
  let chats_list := chats_list_of chats in
  emit (EvConnect db_file) ;;
  execute (pragma_key key) ;;
  execute pragma_page_size ;;
  execute pragma_kdf_iter ;;
  execute pragma_hmac ;;
  execute pragma_kdf ;;
  execute query_conversations ;;
  cc <- foldM (load_conversation chats chats_list) (conversations db)
              (Dict.empty string Contact, Dict.empty string (list RawMessage)) ;;
  let '(contacts, convos) := cc in
  execute query_messages ;;
  convos <- foldM (ingest_row include_disappearing) (messages db) convos ;;
  let convos := prune include_empty convos in
  ret (convos, contacts).

End Ingestion.

(** ** Group metadata: [export_channel_metadata] in [sigexport/main.py] *)

(** [dest / name]; neither operand may be [None]. *)
Definition path_div (p : option path) (c : option string) : M path :=
  match p, c with
  | Some p, Some c => ret (pdiv p c)
  | _, _ => raise (TypeError "unsupported operand type(s) for /")
  end.

(** Lines 177-181: the index of the contacts by service id; a later contact
    with the same service id replaces an earlier one. *)
Definition index_by_serviceId (contacts : Contacts)
    : Dict.t (option string) Contact :=
  fold_left (fun d c => Dict.set Py.ostr_eqb (c_serviceId c) c d)
            (Dict.values contacts) (Dict.empty (option string) Contact).

(** Line 190: [contacts_by_serviceId[m]] *)
Definition lookup_member (index : Dict.t (option string) Contact)
    (m : string) : M Contact :=
  match Dict.get Py.ostr_eqb (Some m) index with
  | Some c => ret c
  | None => raise (KeyError m)
  end.

(** Lines 200-208: the three conditions of the comprehension. *)
Definition shares_group (key : string) (owner member g : Contact) : bool :=
  Py.opt_in (c_serviceId member) (c_members g)
  && (negb (String.eqb key (c_id g))
      && negb (Py.ostr_eqb (c_serviceId member) (c_serviceId owner))).

Definition other_groups (key : string) (owner : Contact)
    (all_groups : list Contact) (member : Contact) : list (option string) :=
  map c_name (filter (shares_group key owner member) all_groups).

(** Lines 196-209: the record of one member. *)
Definition member_meta (key : string) (owner : Contact)
    (all_groups : list Contact) (member : Contact) : MemberMeta :=
  mkMemberMeta (c_name member) (c_profile_name member) (c_number member)
               (other_groups key owner all_groups member).

(** Lines 213-219: the flattened row of one member record. *)
Definition flat_row (g : GroupMeta) (m : MemberMeta) : FlatRow :=
  mkFlatRow (gm_name g) (gm_exported_by g) (gm_exported_on g)
            (length (mm_other_groups m))
            (mm_name m) (mm_display_name m) (mm_number m) (mm_other_groups m).

Definition flat_fieldnames : list string :=
  ["group_name"; "exported_by"; "exported_on"; "num_shared_groups";
   "name"; "display_name"; "number"; "other_groups"].

(** Lines 184-187: is the contact skipped by the loop? *)
Definition skipped (include_chats : option (list string)) (c : Contact)
    : bool :=
  negb (c_is_group c)
  || match include_chats with
     | Some l => negb (Py.opt_in (c_name c) l)
     | None => false
     end.

Section ChannelMetadata.

(** [datetime.now().isoformat()] at the n-th reading of the clock. *)
Variable now : nat -> string.

Definition datetime_now : M string :=
  fun w => (mkWorld (trace w) (S (clock w)), Return (now (clock w))).

(** Lines 188-230: the body of the loop for a group that is not skipped. *)
Definition export_group (dest : option path)
    (index : Dict.t (option string) Contact) (all_groups : list Contact)
    (owner : Contact) (key : string) (c : Contact) : M unit :=
  dir <- path_div dest (c_name c) ;;
  emit (EvMakedirs dir) ;;
  members <- mapM (lookup_member index) (c_members c) ;;
  exported_on <- datetime_now ;;
  let group_meta :=
    mkGroupMeta (c_name c) (c_profile_name owner) exported_on
                (map (member_meta key owner all_groups) members) in
  let flat_meta := map (flat_row group_meta) (gm_members group_meta) in
  let members_json_path := pdiv dir "meta.json" in
  emit (EvOpenW members_json_path) ;;
  emit (EvWriteJson members_json_path group_meta) ;;
  let members_csv_path := pdiv dir "members.csv" in
  emit (EvOpenW members_csv_path) ;;
  match flat_meta with
  | [] => raise (IndexError "list index out of range")
  | _ :: _ => emit (EvWriteCsv members_csv_path flat_fieldnames flat_meta)
  end.

Definition export_channel_metadata (dest : option path)
    (contacts : Contacts) (owner : Contact)
    (include_chats : option (list string)) : M unit :=
  let contacts_by_serviceId := index_by_serviceId contacts in
  let all_groups := filter c_is_group (Dict.values contacts) in
  forM_ (fun kc : string * Contact =>
           let (key, c) := kc in
           if skipped include_chats c then ret tt
           else export_group dest contacts_by_serviceId all_groups owner
                             key c)
        (Dict.items contacts).

End ChannelMetadata.

(** ** The command: [main] in [sigexport/main.py] *)

Record Args := mkArgs {
  a_dest : option path;
  a_source : option path;
  a_old : option path;
  a_password : option string;
  a_key : option string;
  a_paginate : Z;
  a_chats : string;
  a_json_output : bool;
  a_html_output : bool;
  a_list_chats : bool;
  a_include_empty : bool;
  a_include_disappearing : bool;
  a_overwrite : bool;
  a_verbose : bool;
  a_network_only : bool
}.

(** The objects a tuple returned by [fetch_data] can hold, and the one
    [main] expects as third component. *)
Inductive pyobj :=
| PyConvos (c : Convos)
| PyContacts (c : Contacts)
| PyContact (c : Contact).

(** The value of [return convos, contacts]. *)
Definition tuple_of_fetch (r : Convos * Contacts) : list pyobj :=
  [PyConvos (fst r); PyContacts (snd r)].

Definition digit (n : nat) : string :=
  match n with
  | 0 => "0"
  | 1 => "1"
  | _ => "2"
  end.

(** [a, b, c = t] *)
Definition unpack3 (t : list pyobj) : M (pyobj * pyobj * pyobj) :=
  match t with
  | [a; b; c] => ret (a, b, c)
  | _ =>
      if (length t <? 3)%nat
      then raise (ValueError ("not enough values to unpack (expected 3, got "
                              ++ digit (length t) ++ ")"))
      else raise (ValueError "too many values to unpack (expected 3)")
  end.

(** Uses of an unpacked object as a contacts dictionary, a conversations
    dictionary or a contact. *)
Definition as_contacts (o : pyobj) : M Contacts :=
  match o with
  | PyContacts c => ret c
  | _ => raise (AttributeError "not a dictionary of contacts")
  end.

Definition as_convos (o : pyobj) : M Convos :=
  match o with
  | PyConvos c => ret c
  | _ => raise (AttributeError "not a dictionary of conversations")
  end.

Definition as_contact (o : pyobj) : M Contact :=
  match o with
  | PyContact c => ret c
  | _ => raise (AttributeError "not a contact")
  end.

(** Lines 101-102: the names listed by [--list-chats]. *)
Definition chat_names (contacts : Contacts) : list string :=
  Py.sorted
    (flat_map (fun v => match c_name v with Some n => [n] | None => [] end)
              (Dict.values contacts)).

Section Main.

Variable json_loads : string -> outcome json.
Variable get_key : path -> option string -> outcome string.
Variable now : nat -> string.

(** [ctx.get_help()] *)
Variable help : string.
(** [utils.source_location()] *)
Variable source_location : path.
(** [Path(source).expanduser().absolute()] *)
Variable absolute : path -> path.
(** [p.is_file()] *)
Variable is_file : path -> bool.
(** Lines 105-171: the rendering of the export, done by the modules
    [utils], [files], [create], [merge] and [html]. *)
Variable render : Args -> path -> Convos -> Contacts -> M unit.

(** Lines 96-98: the metadata path. *)
Definition network_only_path (dest : option path) (contacts : Contacts)
    (owner : Contact) (chats : string) : M unit :=
  export_channel_metadata now dest contacts owner
                          (Some (Py.split "," chats)) ;;
  raise (Exit 0).

(** Lines 96-171: what follows the unpacking. *)
Definition after_fetch (a : Args) (source_dir : path)
    (convos contacts owner : pyobj) : M unit :=
  if a_network_only a then
    contacts <- as_contacts contacts ;;
    owner <- as_contact owner ;;
    network_only_path (a_dest a) contacts owner (a_chats a)
  else if a_list_chats a then
    contacts <- as_contacts contacts ;;
    secho (String.concat " | " (chat_names contacts)) ;;
    raise (Exit 0)
  else
    convos <- as_convos convos ;;
    contacts <- as_contacts contacts ;;
    render a source_dir convos contacts.

Definition main (db : Store) (a : Args) : M unit :=
  if negb (match a_dest a with Some _ => true | None => false end
           || a_list_chats a)
  then secho help ;; raise (Exit 1)
  else
    let source_dir :=
      match a_source a with
      | Some source => absolute source
      | None => source_location
      end in
    if negb (is_file (pdiv source_dir "config.json"))
    then
      secho ("Error: config.json not found in directory "
             ++ String.concat "/" source_dir) ;;
      raise (Exit 1)
    else
      r <- fetch_data json_loads get_key db source_dir (a_password a)
                      (a_key a) (a_chats a) (a_include_empty a)
                      (a_include_disappearing a) ;;
      t <- unpack3 (tuple_of_fetch r) ;;
      let '(convos, contacts, owner) := t in
      after_fetch a source_dir convos contacts owner.

End Main.

(** ** Notions used in the statements *)

(** The statements executed on the cursor, in order. *)
Fixpoint executed (t : list event) : list string :=
  match t with
  | [] => []
  | EvExecute sql :: t' => sql :: executed t'
  | _ :: t' => executed t'
  end.

(** The events that create or write something under the destination. *)
Definition is_output (e : event) : bool :=
  match e with
  | EvMakedirs _ | EvOpenW _ | EvWriteJson _ _ | EvWriteCsv _ _ _ => true
  | _ => false
  end.

Definition outputs (t : list event) : list event := filter is_output t.

(** The nested documents written, in order. *)
Fixpoint written_docs (t : list event) : list GroupMeta :=
  match t with
  | [] => []
  | EvWriteJson _ doc :: t' => doc :: written_docs t'
  | _ :: t' => written_docs t'
  end.

(** The contacts and the retained (still empty) buckets after the first
    loop of [fetch_data]. *)
Definition load_all (chats : string) (rows : list ConvRow)
    : Contacts * Convos :=
  fold_left (fun acc r => load_step chats (chats_list_of chats) r acc) rows
            (Dict.empty string Contact, Dict.empty string (list RawMessage)).

(** The key the session is opened with. *)
Definition resolved (get_key : path -> option string -> outcome string)
    (source_dir : path) (password key : option string) : outcome string :=
  match key with
  | Some k => Return k
  | None => get_key source_dir password
  end.

(** The three exclusion rules of the second loop, read as one test. *)
Definition accepts (include_disappearing : bool) (convos : Convos)
    (r : MsgRow) : bool :=
  match mr_conversationId r with
  | Some cid =>
      (Py.truthy_str cid && Dict.mem String.eqb cid convos)
      && negb (excluded_type (mr_type r))
      && negb (Py.truthy_oint (mr_expireTimer r)
               && negb include_disappearing)
  | None => false
  end.

(** The payload of the row does not decode. *)
Definition undecodable (json_loads : string -> outcome json) (r : MsgRow)
    : bool :=
  match decode_column json_loads (mr_json r) with
  | Return _ => false
  | Raised _ => true
  end.

(** The payload of the row decodes to an object. *)
Definition decodes_to_object (json_loads : string -> outcome json)
    (r : MsgRow) : bool :=
  match decode_column json_loads (mr_json r) with
  | Return (JObj _) => true
  | _ => false
  end.

(** A message with the id of the row sits in some bucket. *)
Definition appears (r : MsgRow) (convos : Convos) : Prop :=
  exists k msgs m, In (k, msgs) convos /\ In m msgs /\ m_id m = mr_id r.

(** The result of a computation that does not depend on the world. *)
Definition run {A} (m : M A) : outcome A := snd (m initial).

(** What [fetch_data] does between the resolution of the key and the second
    loop. *)
Definition session_events (source_dir : path) (key : string)
    (rows : list ConvRow) : list event :=
  let db_file := pdiv (pdiv source_dir "sql") "db.sqlite" in
  ([EvLog ("Fetching data from " ++ String.concat "/" db_file ++ Py.nl);
    EvConnect db_file;
    EvExecute (pragma_key key);
    EvExecute pragma_page_size;
    EvExecute pragma_kdf_iter;
    EvExecute pragma_hmac;
    EvExecute pragma_kdf;
    EvExecute query_conversations]
   ++ map (fun r => EvLog (loading_message r)) rows
   ++ [EvExecute query_messages])%list.

(** [jsonLoaded.get(k, default)] on the fields of an object. *)
Definition field (fields : list (string * json)) (k : string)
    (default : json) : json :=
  match Dict.get String.eqb k fields with
  | Some v => v
  | None => default
  end.

(** The message built at lines 82-99 from a row whose payload decoded to
    an object. *)
Definition message_of_row (cid : string) (r : MsgRow)
    (fields : list (string * json)) : RawMessage :=
  mkRawMessage cid (mr_id r) (mr_type r) (mr_body r)
    (mr_sourceServiceId r) (mr_timestamp r) (mr_sent_at r)
    (mr_serverTimestamp r) (mr_hasAttachments r)
    (field fields "attachments" (JArr []))
    (mr_readStatus r) (mr_seenStatus r)
    (field fields "call_history" JNull)
    (field fields "reactions" (JArr []))
    (field fields "sticker" JNull)
    (field fields "quote" JNull).

(** The statements executed before the first of the two queries. *)
Fixpoint before_queries (l : list string) : list string :=
  match l with
  | [] => []
  | sql :: l' =>
      if String.eqb sql query_conversations || String.eqb sql query_messages
      then []
      else sql :: before_queries l'
  end.

(** The order of the cipher parameters in which the secret comes last. *)
Definition key_last_order (key : string) : list string :=
  [pragma_page_size; pragma_kdf_iter; pragma_hmac; pragma_kdf;
   pragma_key key].

(** The order of the statements in [fetch_data]. *)
Definition key_first_order (key : string) : list string :=
  [pragma_key key; pragma_page_size; pragma_kdf_iter; pragma_hmac;
   pragma_kdf].

(** The row with another id. *)
Definition set_id (id : string) (r : MsgRow) : MsgRow :=
  mkMsgRow (mr_conversationId r) (mr_type r) (mr_json r) id (mr_body r)
           (mr_sourceServiceId r) (mr_timestamp r) (mr_sent_at r)
           (mr_serverTimestamp r) (mr_hasAttachments r) (mr_readStatus r)
           (mr_seenStatus r) (mr_expireTimer r).

(** "Ingestion fails with an error that identifies the offending message's
    id": the id can be read off the exception, by some reading [id_of]. *)
Definition names_message_id (id_of : exn -> string) : Prop :=
  forall (json_loads : string -> outcome json)
         (get_key : path -> option string -> outcome string)
         db source_dir password key chats ie b w r,
    In r (messages db) ->
    undecodable json_loads r = true ->
    exists e,
      snd (fetch_data json_loads get_key db source_dir password key chats
                      ie b w) = Raised e
      /\ id_of e = mr_id r.

(** The events a computation adds to the trace. *)
Definition emitted {A} (m : M A) (w : world) : list event :=
  skipn (length (trace w)) (trace (fst (m w))).

(** Lines 79-82 of [main]: the source directory. *)
Definition source_dir_of (source_location : path) (absolute : path -> path)
    (a : Args) : path :=
  match a_source a with
  | Some source => absolute source
  | None => source_location
  end.

(** Does [main] get as far as calling [fetch_data]? *)
Definition reaches_fetch (source_location : path) (absolute : path -> path)
    (is_file : path -> bool) (a : Args) : bool :=
  (match a_dest a with Some _ => true | None => false end || a_list_chats a)
  && is_file (pdiv (source_dir_of source_location absolute a) "config.json").

(** The exception of [convos, contacts, owner = t] for a pair [t]. *)
Definition unpack_error : exn :=
  ValueError "not enough values to unpack (expected 3, got 2)".

(** The other groups shared by the member with service id [sid], read off
    the contacts: the groups other than [key] that list [sid]. *)
Definition groups_sharing (contacts : Contacts) (key sid : string)
    : list (option string) :=
  map c_name
      (filter (fun g => c_is_group g
                        && (Py.str_in sid (c_members g)
                            && negb (String.eqb key (c_id g))))
              (Dict.values contacts)).

(** [doc] is a nested document of the group [c] stored under [key]: its
    member records are those of the contacts the member ids resolve to. *)
Definition doc_of_group (contacts : Contacts) (owner : Contact)
    (key : string) (c : Contact) (doc : GroupMeta) : Prop :=
  exists members,
    Forall2 (fun sid m =>
               Dict.get Py.ostr_eqb (Some sid) (index_by_serviceId contacts)
               = Some m)
            (c_members c) members
    /\ gm_name doc = c_name c
    /\ gm_exported_by doc = c_profile_name owner
    /\ gm_members doc
       = map (member_meta key owner
                (filter c_is_group (Dict.values contacts))) members.

(** What an event written for the group [c] holds. *)
Definition group_event (contacts : Contacts) (owner : Contact)
    (key : string) (c : Contact) (ev : event) : Prop :=
  match ev with
  | EvWriteJson _ doc => doc_of_group contacts owner key c doc
  | EvWriteCsv _ _ rows =>
      exists doc, doc_of_group contacts owner key c doc
                  /\ rows = map (flat_row doc) (gm_members doc)
  | _ => True
  end.

(** The [other_groups] of the member records that carry the given name. *)
Definition other_groups_of (name : string) (doc : GroupMeta)
    : list (list (option string)) :=
  map mm_other_groups
      (filter (fun m => Py.ostr_eqb (mm_name m) (Some name))
              (gm_members doc)).

(** ** Sample data for the scenarios *)

(** A decoder that answers as [json.loads] does on the documents of the
    scenarios: the empty object, the empty array, [null], and documents that
    start with no JSON value at all. *)
Definition sample_loads (doc : string) : outcome json :=
  if String.eqb doc "{}" then Return (JObj [])
  else if String.eqb doc "[]" then Return (JArr [])
  else if String.eqb doc "null" then Return JNull
  else Raised (JSONDecodeError "Expecting value" doc 0).

Definition sample_get_key (source_dir : path) (password : option string)
    : outcome string :=
  Raised (OtherError "no key").

Definition sample_now (n : nat) : string := "2024-01-01T00:00:00".

Definition person (id sid name : string) : Contact :=
  mkContact id (Some sid) (Some name) None (Some name) [] false.

Definition group (id name : string) (members : list string) : Contact :=
  mkContact id None (Some name) None None members true.

Definition owner_O : Contact := person "o" "sO" "Olga".

(** Owner O, members A, B, C; G1 = {O, A, B}, G2 = {A, C, O}. *)
Definition scenario_contacts : Contacts :=
  [("o", owner_O); ("a", person "a" "sA" "Ann");
   ("b", person "b" "sB" "Bob"); ("c", person "c" "sC" "Cy");
   ("g1", group "g1" "G1" ["sO"; "sA"; "sB"]);
   ("g2", group "g2" "G2" ["sA"; "sC"; "sO"])].

Definition conv_row (type : option string) (id : string)
    (name profile : option string) : ConvRow :=
  mkConvRow type id None None name profile None.

Definition msg_row (cid type doc : option string) (id : string)
    (expireTimer : option Z) : MsgRow :=
  mkMsgRow cid type doc id None None None None None None None None
           expireTimer.

Definition sample_store (msgs : list MsgRow) : Store :=
  mkStore [conv_row (Some "private") "c1" None (Some "Ann");
           conv_row (Some "group") "c2" (Some "G1") None]
          msgs.

Definition sample_session_trace : list event :=
  trace (fst (fetch_data sample_loads sample_get_key (sample_store [])
                         ["src"] None (Some "00ff") "" false false initial)).

(** A row with a malformed payload that the first exclusion rule would
    drop: it belongs to no conversation. *)
Definition malformed_row (id : string) : MsgRow :=
  msg_row None (Some "incoming") (Some "not json") id None.

(** A disappearing message of conversation [c1]. *)
Definition timer_row : MsgRow :=
  msg_row (Some "c1") (Some "incoming") (Some "{}") "m1" (Some 30%Z).

Definition sample_is_file (p : path) : bool := true.
Definition sample_absolute (p : path) : path := p.
Definition sample_render (a : Args) (source_dir : path) (convos : Convos)
    (contacts : Contacts) : M unit := ret tt.

Definition sample_args : Args :=
  mkArgs (Some ["out"]) None None None (Some "00ff") 100 "" true true
         false false false false false true.

(** ** Notions for the further properties *)

(** The message [m] is the one lines 82-99 build from the row [r] for the
    bucket [k]. *)
Definition from_row (json_loads : string -> outcome json) (k : string)
    (r : MsgRow) (m : RawMessage) : Prop :=
  exists fields,
    decode_column json_loads (mr_json r) = Return (JObj fields)
    /\ m = message_of_row k r fields.

(** The rows of the conversation [k] that pass the three exclusion rules. *)
Definition selected_for (include_disappearing : bool) (convos : Convos)
    (k : string) (r : MsgRow) : bool :=
  accepts include_disappearing convos r
  && Py.ostr_eqb (mr_conversationId r) (Some k).

(** The order of [ORDER BY sent_at]: NULL first, then by value. *)
Definition sent_at_le (a b : option Z) : Prop :=
  match a, b with
  | None, _ => True
  | Some _, None => False
  | Some x, Some y => (x <= y)%Z
  end.

(** Two rows of conversation [c1], the later one sent first in the table. *)
Definition sent_row (id : string) (sent_at : Z) : MsgRow :=
  mkMsgRow (Some "c1") (Some "incoming") (Some "{}") id None None None
           (Some sent_at) None None None None None.


(** Does the character occur in the string? *)
Fixpoint has_char (c : ascii) (s : string) : bool :=
  match s with
  | EmptyString => false
  | String c' s' => Ascii.eqb c' c || has_char c s'
  end.

(** A store whose conversation [c1] has two messages. *)
Definition two_message_store : Store :=
  sample_store [sent_row "m1" 10; sent_row "m2" 20].

(** A row of conversation [c1] whose payload is a JSON array. *)
Definition array_row : MsgRow :=
  msg_row (Some "c1") (Some "incoming") (Some "[]") "m7" None.

(** A group row with three members. *)
Definition group_row : ConvRow :=
  mkConvRow (Some "group") "g1" None None (Some "G1") None
            (Some "sO sA sB").


(** Line 190 read on its own: the contacts the member ids resolve to, or
    the [KeyError] of the first id that has none. *)
Definition resolve_members (index : Dict.t (option string) Contact)
    (sids : list string) : outcome (list Contact) :=
  run (mapM (lookup_member index) sids).

(** The nested document of lines 191-211 for resolved members. *)
Definition group_doc (contacts : Contacts) (owner : Contact) (key : string)
    (c : Contact) (exported_on : string) (members : list Contact)
    : GroupMeta :=
  mkGroupMeta (c_name c) (c_profile_name owner) exported_on
    (map (member_meta key owner (filter c_is_group (Dict.values contacts)))
         members).

(** What the export of one group does, up to the opening of the table. *)
Definition group_prelude (dir : path) (doc : GroupMeta) : list event :=
  [EvMakedirs dir;
   EvOpenW (pdiv dir "meta.json");
   EvWriteJson (pdiv dir "meta.json") doc;
   EvOpenW (pdiv dir "members.csv")].

(** The table of a document. *)
Definition group_table (dir : path) (doc : GroupMeta) : event :=
  EvWriteCsv (pdiv dir "members.csv") flat_fieldnames
             (map (flat_row doc) (gm_members doc)).

(** The loop body of [export_channel_metadata], lines 183-230. *)
Definition export_body (now : nat -> string) (dest : option path)
    (contacts : Contacts) (owner : Contact)
    (include_chats : option (list string)) (kc : string * Contact)
    : M unit :=
  let (key, c) := kc in
  if skipped include_chats c then ret tt
  else export_group now dest (index_by_serviceId contacts)
                    (filter c_is_group (Dict.values contacts)) owner key c.

(** The groups an export goes through. *)
Definition exported_groups (include_chats : option (list string))
    (contacts : Contacts) : list (string * Contact) :=
  filter (fun kc => negb (skipped include_chats (snd kc))) contacts.





(** The directory or file an event creates or writes. *)
Definition event_path (ev : event) : option path :=
  match ev with
  | EvMakedirs p | EvOpenW p | EvWriteJson p _ | EvWriteCsv p _ _ => Some p
  | _ => None
  end.


(** The name of a contact, when it has one. *)
Definition name_list (c : Contact) : list string :=
  match c_name c with
  | Some n => [n]
  | None => []
  end.

(** Arguments with neither a destination nor [--list-chats]. *)
Definition no_dest_args : Args :=
  mkArgs None None None None (Some "00ff") 100 "" true true
         false false false false false false.


(** The row does not stop the second loop: its payload decodes, and to an
    object when the three exclusion rules keep the row. *)
Definition row_ok (json_loads : string -> outcome json)
    (include_disappearing : bool) (convos : Convos) (r : MsgRow) : Prop :=
  exists j,
    decode_column json_loads (mr_json r) = Return j
    /\ (accepts include_disappearing convos r = true ->
        exists fields, j = JObj fields).

(** A row of conversation [c1] whose payload column is NULL. *)
Definition null_payload_row : MsgRow :=
  msg_row (Some "c1") (Some "incoming") None "m8" None.

(** Arguments of a metadata export with no key given. *)
Definition no_key_args : Args :=
  mkArgs (Some ["out"]) None None None None 100 "" true true
         false false false false false true.

(** A store whose only conversation has the empty string as name. *)
Definition empty_name_store : Store :=
  mkStore [conv_row (Some "private") "c1" (Some "") (Some "Ann")] [].

(** A disappearing message of conversation [c1] with an excluded type. *)
Definition keychange_timer_row : MsgRow :=
  msg_row (Some "c1") (Some "keychange") (Some "{}") "m1" (Some 30%Z).

(** A row with a JSON array as payload that the first exclusion rule
    drops: its conversation is not among the contacts. *)
Definition array_row_dropped : MsgRow :=
  msg_row (Some "zz") (Some "incoming") (Some "[]") "m0" None.

(** * Properties *)

(** ** Dictionaries *)

Section DictFacts.
Variables K V : Type.
Variable eqb : K -> K -> bool.
Hypothesis eqb_eq : forall a b, eqb a b = true <-> a = b.

Lemma eqb_same k : eqb k k = true.
Proof. apply eqb_eq. reflexivity. Qed.

Lemma eqb_diff k k' : k <> k' -> eqb k k' = false.
Proof.
  intros H. destruct (eqb k k') eqn:E; [|reflexivity].
  apply eqb_eq in E. contradiction.
Qed.

Lemma get_set_same k (v : V) d :
  Dict.get eqb k (Dict.set eqb k v d) = Some v.
Proof.
  induction d as [|[k' v'] d IH]; simpl.
  - now rewrite eqb_same.
  - destruct (eqb k k') eqn:E; simpl; rewrite E; auto.
Qed.

Lemma get_set_other k k' (v : V) d :
  k <> k' -> Dict.get eqb k (Dict.set eqb k' v d) = Dict.get eqb k d.
Proof.
  intros Hne. induction d as [|[k2 v2] d IH]; simpl.
  - now rewrite (eqb_diff Hne).
  - destruct (eqb k' k2) eqn:E; simpl.
    + apply eqb_eq in E. subst k2. now rewrite (eqb_diff Hne).
    + now rewrite IH.
Qed.

Lemma get_update_same k (f : V -> V) d :
  Dict.get eqb k (Dict.update eqb k f d) = option_map f (Dict.get eqb k d).
Proof.
  induction d as [|[k' v'] d IH]; simpl; [reflexivity|].
  destruct (eqb k k') eqn:E; simpl; rewrite E; auto.
Qed.

Lemma get_update_other k k' (f : V -> V) d :
  k <> k' -> Dict.get eqb k (Dict.update eqb k' f d) = Dict.get eqb k d.
Proof.
  intros Hne. induction d as [|[k2 v2] d IH]; simpl; [reflexivity|].
  destruct (eqb k' k2) eqn:E; simpl.
  - apply eqb_eq in E. subst k2. now rewrite (eqb_diff Hne).
  - now rewrite IH.
Qed.

Lemma mem_update k k' (f : V -> V) d :
  Dict.mem eqb k (Dict.update eqb k' f d) = Dict.mem eqb k d.
Proof.
  unfold Dict.mem. induction d as [|[k2 v2] d IH]; simpl; [reflexivity|].
  destruct (eqb k' k2) eqn:E; simpl.
  - destruct (eqb k k2); reflexivity.
  - destruct (eqb k k2); auto.
Qed.

Lemma get_in k (v : V) d : Dict.get eqb k d = Some v -> In (k, v) d.
Proof.
  induction d as [|[k' v'] d IH]; simpl; [discriminate|].
  destruct (eqb k k') eqn:E.
  - intros [= ->]. apply eqb_eq in E. subst. now left.
  - intros H. right. auto.
Qed.

Lemma get_filter k (v : V) (keep : K * V -> bool) d :
  Dict.get eqb k d = Some v -> keep (k, v) = true ->
  Dict.get eqb k (filter keep d) = Some v.
Proof.
  intros Hget Hkeep. induction d as [|[k' v'] d IH]; simpl in *.
  - discriminate.
  - destruct (eqb k k') eqn:E.
    + injection Hget as ->. apply eqb_eq in E. subst k'.
      rewrite Hkeep. simpl. now rewrite eqb_same.
    + destruct (keep (k', v')); simpl; [rewrite E|]; auto.
Qed.

(** An update touches the values only: every entry of the result comes
    from an entry of the dictionary under the same key. *)
Lemma in_update k (f : V -> V) d k' v' :
  In (k', v') (Dict.update eqb k f d) ->
  In (k', v') d \/ (k' = k /\ exists v, In (k, v) d /\ v' = f v).
Proof.
  induction d as [|[k2 v2] d IH]; simpl; [tauto|].
  destruct (eqb k k2) eqn:E; simpl.
  - intros [H|H].
    + injection H as <- <-. apply eqb_eq in E. subst k2.
      right. split; [reflexivity|]. exists v2. auto.
    + auto.
  - intros [H|H]; [auto|].
    destruct (IH H) as [H1|[-> [v [H1 ->]]]]; [auto|].
    right. split; [reflexivity|]. exists v. auto.
Qed.

End DictFacts.


Lemma ostr_eqb_eq a b : Py.ostr_eqb a b = true <-> a = b.
Proof.
  destruct a, b; simpl; split; try congruence.
  - intros H. apply String.eqb_eq in H. congruence.
  - intros [= ->]. apply String.eqb_refl.
Qed.

Lemma filter_idem {A} (f : A -> bool) l : filter f (filter f l) = filter f l.
Proof.
  induction l as [|x l IH]; simpl; [reflexivity|].
  destruct (f x) eqn:E; simpl; [rewrite E, IH|]; auto.
Qed.

(** ** The Conversation Pruner *)

(** C9. Pruning twice with "include empty" false gives the same
    conversations map as pruning once (and with the flag true the pruner is
    the identity, so this holds for either value of the flag). *)
Theorem prune_idempotent (include_empty : bool) (convos : Convos) :
  prune false (prune false convos) = prune false convos
  /\ prune include_empty (prune include_empty convos)
     = prune include_empty convos.
Proof.
  split.
  - unfold prune. simpl. unfold Dict.items. apply filter_idem.
  - destruct include_empty; unfold prune; simpl; [reflexivity|].
    unfold Dict.items. apply filter_idem.
Qed.

(** After pruning with "include empty" false every bucket holds a message,
    and a bucket that holds a message is kept as it is. *)
Lemma prune_nonempty convos k msgs :
  In (k, msgs) (prune false convos) -> msgs <> [].
Proof.
  unfold prune, Dict.items. simpl. intros H.
  apply filter_In in H. destruct H as [_ H]. simpl in H.
  destruct msgs; [discriminate|congruence].
Qed.

Lemma prune_in include_empty convos k msgs :
  In (k, msgs) (prune include_empty convos) -> In (k, msgs) convos.
Proof.
  unfold prune, Dict.items. destruct include_empty; simpl; [auto|].
  intros H. apply filter_In in H. tauto.
Qed.

Lemma prune_get include_empty (convos : Convos) k msgs :
  Dict.get String.eqb k convos = Some msgs -> msgs <> [] ->
  Dict.get String.eqb k (prune include_empty convos) = Some msgs.
Proof.
  intros Hget Hne. unfold prune, Dict.items.
  destruct include_empty; simpl; [assumption|].
  apply (get_filter String.eqb String.eqb_eq); [assumption|].
  simpl. destruct msgs; [congruence|reflexivity].
Qed.

(** ** The two loops of [fetch_data] *)

Lemma world_eta w : mkWorld (trace w) (clock w) = w.
Proof. destruct w; reflexivity. Qed.

Lemma foldM_load chats cl rows : forall acc w,
  foldM (load_conversation chats cl) rows acc w
  = (mkWorld (trace w ++ map (fun r => EvLog (loading_message r)) rows)%list
             (clock w),
     Return (fold_left (fun acc r => load_step chats cl r acc) rows acc)).
Proof.
  induction rows as [|r rows IH]; intros acc w; simpl.
  - rewrite app_nil_r, world_eta. reflexivity.
  - unfold bind at 1. unfold load_conversation at 1.
    unfold bind, log, emit, ret. simpl. rewrite IH. simpl.
    rewrite <- app_assoc. reflexivity.
Qed.

(** The contacts dictionary does not depend on the buckets. *)
Lemma load_contacts_step chats cl r contacts convos :
  fst (load_step chats cl r (contacts, convos))
  = Dict.update String.eqb (cr_id r) name_fallback
      (Dict.set String.eqb (cr_id r) (contact_of_row r) contacts).
Proof. reflexivity. Qed.

Lemma load_contacts_keep chats cl k c rows : forall acc,
  (forall r, In r rows -> cr_id r <> k) ->
  Dict.get String.eqb k (fst acc) = Some c ->
  Dict.get String.eqb k
    (fst (fold_left (fun acc r => load_step chats cl r acc) rows acc))
  = Some c.
Proof.
  induction rows as [|r rows IH]; intros [contacts convos] Hne Hget;
    cbn [fold_left].
  - assumption.
  - simpl in Hget. apply IH.
    + intros r' Hr'. apply Hne. now right.
    + rewrite load_contacts_step.
      assert (Hk : k <> cr_id r).
      { intros ->. apply (Hne r); [now left|reflexivity]. }
      rewrite (get_update_other String.eqb String.eqb_eq _ _ Hk).
      rewrite (get_set_other String.eqb String.eqb_eq _ _ Hk).
      assumption.
Qed.

Lemma load_contacts_last chats cl r pre post acc :
  (forall r', In r' post -> cr_id r' <> cr_id r) ->
  Dict.get String.eqb (cr_id r)
    (fst (fold_left (fun acc r => load_step chats cl r acc)
                    (pre ++ r :: post) acc))
  = Some (name_fallback (contact_of_row r)).
Proof.
  intros Hne. rewrite fold_left_app. cbn [fold_left].
  apply load_contacts_keep; [assumption|].
  destruct (fold_left _ pre acc) as [contacts convos].
  rewrite load_contacts_step.
  rewrite (get_update_same String.eqb).
  rewrite (get_set_same String.eqb String.eqb_eq). reflexivity.
Qed.

(** The buckets of the first loop are all empty, and later rows leave the
    set of retained ids as the rows decide. *)
Lemma set_empty_all_empty (k : string) (convos : Convos) :
  Forall (fun kv => snd kv = []) convos ->
  Forall (fun kv => snd kv = []) (Dict.set String.eqb k [] convos).
Proof.
  induction 1 as [|[k' v'] d Hv Hd IH]; simpl.
  - repeat constructor.
  - destruct (String.eqb k k'); constructor; auto.
Qed.

Lemma load_convos_empty chats cl rows : forall acc,
  Forall (fun kv => snd kv = []) (snd acc) ->
  Forall (fun kv => snd kv = [])
    (snd (fold_left (fun acc r => load_step chats cl r acc) rows acc)).
Proof.
  induction rows as [|r rows IH]; intros [contacts convos] H; simpl.
  - assumption.
  - apply IH. simpl. destruct (chat_selected chats cl r); simpl.
    + now apply set_empty_all_empty.
    + assumption.
Qed.

Lemma load_all_empty chats rows :
  Forall (fun kv => snd kv = []) (snd (load_all chats rows)).
Proof. apply load_convos_empty. constructor. Qed.

Section IngestionFacts.

Variable json_loads : string -> outcome json.
Variable get_key : path -> option string -> outcome string.

Lemma json_get_pure j k default w :
  json_get j k default w = (w, run (json_get j k default)).
Proof.
  unfold run, json_get, ret, raise.
  destruct j; try reflexivity.
  destruct (Dict.get String.eqb k fields); reflexivity.
Qed.

Lemma ingest_row_pure b r convos w :
  ingest_row json_loads b r convos w
  = (w, run (ingest_row json_loads b r convos)).
Proof.
  unfold run, ingest_row, bind, loads_column, lift. simpl.
  destruct (decode_column json_loads (mr_json r)) as [j|e]; simpl;
    [|reflexivity].
  destruct (mr_conversationId r) as [cid|]; [|reflexivity].
  destruct (Py.truthy_str cid && Dict.mem String.eqb cid convos); simpl;
    [|reflexivity].
  destruct (excluded_type (mr_type r)); simpl; [reflexivity|].
  destruct (Py.truthy_oint (mr_expireTimer r) && negb b); simpl;
    [reflexivity|].
  rewrite !(json_get_pure j _ _ w), !(json_get_pure j _ _ initial).
  repeat match goal with
         | |- context [run (json_get j ?k ?d)] =>
             destruct (run (json_get j k d)); simpl
         end; reflexivity.
Qed.

Lemma ingest_row_cases b r convos :
  run (ingest_row json_loads b r convos)
  = match decode_column json_loads (mr_json r) with
    | Raised e => Raised e
    | Return j =>
        match mr_conversationId r with
        | Some cid =>
            if accepts b convos r then
              match j with
              | JObj fields =>
                  Return (Dict.update String.eqb cid
                            (fun l => l ++ [message_of_row cid r fields])%list
                            convos)
              | _ => Raised (AttributeError
                               ("'" ++ py_type_name j
                                ++ "' object has no attribute 'get'"))
              end
            else Return convos
        | None => Return convos
        end
    end.
Proof.
  unfold run, ingest_row, accepts, bind, loads_column, lift. simpl.
  destruct (decode_column json_loads (mr_json r)) as [j|e]; simpl;
    [|reflexivity].
  destruct (mr_conversationId r) as [cid|]; [|reflexivity].
  destruct (Py.truthy_str cid && Dict.mem String.eqb cid convos); simpl;
    [|reflexivity].
  destruct (excluded_type (mr_type r)); simpl; [reflexivity|].
  destruct (Py.truthy_oint (mr_expireTimer r) && negb b); simpl;
    [reflexivity|].
  destruct j; try reflexivity.
  unfold json_get, message_of_row, field, bind, ret. simpl.
  repeat match goal with
         | |- context [Dict.get String.eqb ?k fields] =>
             destruct (Dict.get String.eqb k fields); simpl
         end; reflexivity.
Qed.

Lemma foldM_ingest_pure b rows : forall convos w,
  foldM (ingest_row json_loads b) rows convos w
  = (w, run (foldM (ingest_row json_loads b) rows convos)).
Proof.
  induction rows as [|r rows IH]; intros convos w; simpl.
  - reflexivity.
  - unfold run. simpl. unfold bind.
    rewrite (ingest_row_pure b r convos w).
    rewrite (ingest_row_pure b r convos initial).
    destruct (run (ingest_row json_loads b r convos)) as [c|e].
    + rewrite (IH c w), (IH c initial). reflexivity.
    + reflexivity.
Qed.

Lemma run_ingest_cons b r rows convos :
  run (foldM (ingest_row json_loads b) (r :: rows) convos)
  = match run (ingest_row json_loads b r convos) with
    | Return c => run (foldM (ingest_row json_loads b) rows c)
    | Raised e => Raised e
    end.
Proof.
  unfold run at 1. simpl. unfold bind.
  rewrite (ingest_row_pure b r convos initial).
  destruct (run (ingest_row json_loads b r convos)) as [c|e].
  - rewrite foldM_ingest_pure. reflexivity.
  - reflexivity.
Qed.

(** [fetch_data] in one piece: the key, the session, the two loops and
    the pruner. *)
Lemma fetch_data_unfold db source_dir password key chats ie b w :
  fetch_data json_loads get_key db source_dir password key chats ie b w
  = match resolved get_key source_dir password key with
    | Raised e =>
        (mkWorld (trace w ++ [EvSechoDecryptFailed e])%list (clock w),
         Raised (Exit 1))
    | Return k =>
        (mkWorld (trace w
                  ++ session_events source_dir k (conversations db))%list
                 (clock w),
         match run (foldM (ingest_row json_loads b) (messages db)
                          (snd (load_all chats (conversations db)))) with
         | Return c =>
             Return (prune ie c, fst (load_all chats (conversations db)))
         | Raised e => Raised e
         end)
    end.
Proof.
  assert (Hrun : forall k,
    fetch_data json_loads get_key db source_dir password (Some k) chats
               ie b w
    = (mkWorld (trace w
                ++ session_events source_dir k (conversations db))%list
               (clock w),
       match run (foldM (ingest_row json_loads b) (messages db)
                        (snd (load_all chats (conversations db)))) with
       | Return c =>
           Return (prune ie c, fst (load_all chats (conversations db)))
       | Raised e => Raised e
       end)).
  { intros k. unfold fetch_data, resolve_key, bind, log, execute, emit, ret.
    simpl. rewrite foldM_load. simpl.
    fold (load_all chats (conversations db)).
    destruct (load_all chats (conversations db)) as [contacts convos].
    simpl. rewrite foldM_ingest_pure.
    unfold session_events. simpl. rewrite <- !app_assoc. simpl.
    destruct (run _); reflexivity. }
  destruct key as [k|]; simpl.
  - apply Hrun.
  - destruct (get_key source_dir password) as [k|e] eqn:E.
    + rewrite <- Hrun. unfold fetch_data, resolve_key. rewrite E.
      reflexivity.
    + unfold fetch_data, resolve_key. rewrite E.
      unfold bind, emit, raise. simpl. reflexivity.
Qed.

End IngestionFacts.

(** ** Contact Normalizer *)

(** C6. A conversation row whose name column is NULL gives a contact whose
    name is the profile name of the row. The row is the last one with its
    id (ids are the primary key of the table, so every row is). *)
Theorem name_fallback_to_profile_name
    (json_loads : string -> outcome json)
    (get_key : path -> option string -> outcome string)
    db source_dir password key chats ie b w w' convos contacts
    pre r post p :
  fetch_data json_loads get_key db source_dir password key chats ie b w
  = (w', Return (convos, contacts)) ->
  conversations db = (pre ++ r :: post)%list ->
  (forall r', In r' post -> cr_id r' <> cr_id r) ->
  cr_name r = None ->
  cr_profileName r = Some p ->
  exists c, Dict.get String.eqb (cr_id r) contacts = Some c
            /\ c_name c = Some p
            /\ c_profile_name c = Some p.
Proof.
  intros Hfetch Hrows Hlast Hname Hprofile.
  rewrite fetch_data_unfold in Hfetch.
  destruct (resolved get_key source_dir password key); [|discriminate].
  destruct (run _); [|discriminate].
  injection Hfetch as _ _ <-.
  exists (name_fallback (contact_of_row r)). split.
  - unfold load_all. rewrite Hrows. now apply load_contacts_last.
  - unfold name_fallback, contact_of_row. simpl. rewrite Hname. simpl.
    auto.
Qed.

Lemma name_fallback_to_profile_name_witness :
  exists c,
    Dict.get String.eqb "c1"
      (fst (load_all "" (conversations (sample_store [])))) = Some c
    /\ c_name c = Some "Ann"
    /\ c_profile_name c = Some "Ann".
Proof.
  apply (@name_fallback_to_profile_name sample_loads sample_get_key
           (sample_store []) ["src"] None (Some "00ff") "" false false
           initial
           (mkWorld (session_events ["src"] "00ff"
                       (conversations (sample_store []))) 0)
           [] (fst (load_all "" (conversations (sample_store []))))
           [] (conv_row (Some "private") "c1" None (Some "Ann"))
           [conv_row (Some "group") "c2" (Some "G1") None] "Ann").
  - reflexivity.
  - reflexivity.
  - intros r' [<-|[]]. simpl. discriminate.
  - reflexivity.
  - reflexivity.
Defined.

(** C6, as stated, fails when "empty" is the empty string: a row whose
    name is the empty string and whose profile name is [Ann] gives a contact
    whose name is still the empty string. *)
Lemma empty_name_kept_counterexample :
  snd (fetch_data sample_loads sample_get_key empty_name_store ["src"] None
                  (Some "00ff") "" false false initial)
  = Return ([], [("c1", mkContact "c1" None (Some "") None (Some "Ann") []
                                  false)])
  /\ Some "" <> Some "Ann".
Proof. split; [reflexivity|discriminate]. Qed.

(** The fallback is taken for an absent name only: a name that is present,
    were it the empty string, is kept. *)
Lemma name_fallback_present c n :
  c_name c = Some n -> name_fallback c = c.
Proof. unfold name_fallback. now intros ->. Qed.

(** With no chat filter, every conversation is retained. *)
Lemma empty_chats_selects_all r :
  chat_selected "" (chats_list_of "") r = true.
Proof. reflexivity. Qed.

(** ** Session Establisher *)

Lemma executed_app t1 t2 :
  executed (t1 ++ t2) = (executed t1 ++ executed t2)%list.
Proof.
  induction t1 as [|e t1 IH]; simpl; [reflexivity|].
  destruct e; simpl; rewrite ?IH; reflexivity.
Qed.

Lemma executed_logs {A} (f : A -> string) l :
  executed (map (fun x => EvLog (f x)) l) = [].
Proof. induction l; simpl; auto. Qed.

(** C4, as the code has it. The statements [fetch_data] executes are, in
    this order: the key, the page size, the iteration count of the key
    derivation, the HMAC algorithm, the key derivation algorithm, and then
    the two queries; when the key cannot be recovered nothing is executed. *)
Theorem session_statements_key_first
    (json_loads : string -> outcome json)
    (get_key : path -> option string -> outcome string)
    db source_dir password key chats ie b w :
  executed (trace (fst (fetch_data json_loads get_key db source_dir
                                   password key chats ie b w)))
  = (executed (trace w)
     ++ match resolved get_key source_dir password key with
        | Return k =>
            key_first_order k ++ [query_conversations; query_messages]
        | Raised _ => []
        end)%list.
Proof.
  rewrite fetch_data_unfold.
  destruct (resolved get_key source_dir password key) as [k|e]; simpl.
  - rewrite executed_app. f_equal. unfold session_events.
    simpl. rewrite executed_app, executed_logs. reflexivity.
  - rewrite executed_app. reflexivity.
Qed.

(** C4, as stated, fails: the key is the first statement of the session,
    not the last. *)
Lemma session_order_counterexample :
  before_queries (executed sample_session_trace) = key_first_order "00ff"
  /\ before_queries (executed sample_session_trace)
     <> key_last_order "00ff".
Proof.
  split.
  - reflexivity.
  - vm_compute. discriminate.
Qed.

(** ** Message Ingestor *)

Section IngestorFacts.

Variable json_loads : string -> outcome json.
Variable b : bool.

Local Abbreviation ingest := (foldM (ingest_row json_loads b)).

Lemma accepts_update k f convos r :
  accepts b (Dict.update String.eqb k f convos) r = accepts b convos r.
Proof.
  unfold accepts. destruct (mr_conversationId r); [|reflexivity].
  now rewrite mem_update.
Qed.

(** One row either leaves the buckets alone or appends its message to
    the bucket of its conversation. *)
Lemma ingest_row_step r convos c1 :
  run (ingest_row json_loads b r convos) = Return c1 ->
  (accepts b convos r = false /\ c1 = convos)
  \/ (accepts b convos r = true
      /\ exists cid fields,
           mr_conversationId r = Some cid
           /\ c1 = Dict.update String.eqb cid
                     (fun l => l ++ [message_of_row cid r fields])%list
                     convos).
Proof.
  rewrite ingest_row_cases.
  destruct (decode_column json_loads (mr_json r)) as [j|e]; [|discriminate].
  destruct (mr_conversationId r) as [cid|] eqn:Ecid.
  - destruct (accepts b convos r) eqn:Eacc.
    + destruct j; try discriminate. intros [= <-].
      right. split; [reflexivity|]. now exists cid, fields.
    + intros [= <-]. now left.
  - intros [= <-]. left. split; [|reflexivity].
    unfold accepts. now rewrite Ecid.
Qed.

Lemma ingest_accepts rows : forall convos c' r,
  run (ingest rows convos) = Return c' ->
  accepts b c' r = accepts b convos r.
Proof.
  induction rows as [|r0 rows IH]; intros convos c' r.
  - unfold run. simpl. now intros [= <-].
  - rewrite run_ingest_cons.
    destruct (run (ingest_row json_loads b r0 convos)) as [c1|e] eqn:E;
      [|discriminate].
    intros H. rewrite (IH _ _ r H).
    destruct (ingest_row_step _ _ E) as [[_ ->]|[_ (cid & fs & _ & ->)]].
    + reflexivity.
    + apply accepts_update.
Qed.

(** Every message of the result was there before or comes from an
    accepted row. *)
Lemma ingest_sound rows : forall convos c' k msgs' m,
  run (ingest rows convos) = Return c' ->
  In (k, msgs') c' -> In m msgs' ->
  (exists msgs, In (k, msgs) convos /\ In m msgs)
  \/ (exists r, In r rows /\ accepts b convos r = true
                /\ m_id m = mr_id r).
Proof.
  induction rows as [|r0 rows IH]; intros convos c' k msgs' m.
  - unfold run. simpl. intros [= <-] Hin Hm. left. now exists msgs'.
  - rewrite run_ingest_cons.
    destruct (run (ingest_row json_loads b r0 convos)) as [c1|e] eqn:E;
      [|discriminate].
    intros H Hin Hm.
    destruct (IH _ _ _ _ _ H Hin Hm) as [(msgs & Hk & Hmm)|(r & Hr & Ha & Hid)].
    + destruct (ingest_row_step _ _ E)
        as [[_ ->]|[Hacc (cid & fs & Hcid & ->)]].
      * left. now exists msgs.
      * apply (in_update String.eqb String.eqb_eq) in Hk.
        destruct Hk as [Hk|[-> (v & Hv & ->)]].
        -- left. now exists msgs.
        -- apply in_app_or in Hmm. destruct Hmm as [Hmm|[<-|[]]].
           ++ left. now exists v.
           ++ right. exists r0. repeat split; auto. now left.
    + right. exists r. repeat split; auto.
      * now right.
      * rewrite <- Ha.
        destruct (ingest_row_step _ _ E) as [[_ ->]|[_ (cid & fs & _ & ->)]].
        -- reflexivity.
        -- symmetry. apply accepts_update.
Qed.

(** Buckets only grow, at their end. *)
Lemma ingest_grows rows : forall convos c' k msgs,
  run (ingest rows convos) = Return c' ->
  Dict.get String.eqb k convos = Some msgs ->
  exists extra, Dict.get String.eqb k c' = Some (msgs ++ extra)%list.
Proof.
  induction rows as [|r0 rows IH]; intros convos c' k msgs.
  - unfold run. simpl. intros [= <-] Hget. exists [].
    now rewrite app_nil_r.
  - rewrite run_ingest_cons.
    destruct (run (ingest_row json_loads b r0 convos)) as [c1|e] eqn:E;
      [|discriminate].
    intros H Hget.
    destruct (ingest_row_step _ _ E)
      as [[_ ->]|[_ (cid & fs & _ & ->)]].
    + now apply (IH _ _ _ _ H).
    + destruct (String.eqb_spec k cid) as [->|Hne].
      * destruct (IH _ _ cid (msgs ++ [message_of_row cid r0 fs])%list H)
          as [extra Hextra].
        { rewrite get_update_same, Hget. reflexivity. }
        exists ([message_of_row cid r0 fs] ++ extra)%list.
        now rewrite app_assoc.
      * apply (IH _ _ _ _ H).
        now rewrite (get_update_other String.eqb String.eqb_eq _ _ Hne).
Qed.

Lemma mem_get (convos : Convos) k :
  Dict.mem String.eqb k convos = true ->
  exists msgs, Dict.get String.eqb k convos = Some msgs.
Proof.
  unfold Dict.mem. destruct (Dict.get String.eqb k convos) as [msgs|].
  - now exists msgs.
  - discriminate.
Qed.

Lemma accepts_mem convos r cid :
  accepts b convos r = true -> mr_conversationId r = Some cid ->
  Dict.mem String.eqb cid convos = true.
Proof.
  intros H Hcid. unfold accepts in H. rewrite Hcid in H.
  apply andb_prop in H. destruct H as [H _].
  apply andb_prop in H. destruct H as [H _].
  apply andb_prop in H. tauto.
Qed.

(** The message of every accepted row is in the bucket of its
    conversation. *)
Lemma ingest_complete rows : forall convos c' r cid,
  run (ingest rows convos) = Return c' ->
  In r rows -> accepts b convos r = true ->
  mr_conversationId r = Some cid ->
  exists msgs m, Dict.get String.eqb cid c' = Some msgs
                 /\ In m msgs /\ m_id m = mr_id r.
Proof.
  induction rows as [|r0 rows IH]; intros convos c' r cid; [intros _ []|].
  rewrite run_ingest_cons.
  destruct (run (ingest_row json_loads b r0 convos)) as [c1|e] eqn:E;
    [|discriminate].
  intros H [->|Hin] Hacc Hcid.
  - destruct (ingest_row_step _ _ E)
      as [[Hno _]|[_ (cid' & fs & Hcid' & ->)]]; [congruence|].
    assert (cid' = cid) as -> by congruence.
    destruct (mem_get _ _ (accepts_mem _ _ Hacc Hcid)) as [v Hv].
    destruct (@ingest_grows rows _ _ cid
                (v ++ [message_of_row cid r fs])%list H)
      as [extra Hextra].
    { rewrite get_update_same, Hv. reflexivity. }
    exists ((v ++ [message_of_row cid r fs]) ++ extra)%list,
           (message_of_row cid r fs).
    split; [assumption|]. split; [|reflexivity].
    apply in_or_app. left. apply in_or_app. right. now left.
  - apply (IH _ _ _ _ H Hin); [|assumption].
    rewrite <- Hacc.
    destruct (ingest_row_step _ _ E) as [[_ ->]|[_ (cid' & fs & _ & ->)]].
    + reflexivity.
    + apply accepts_update.
Qed.

(** A row whose payload does not decode stops the loop, whatever the
    exclusion rules say about it. *)
Lemma ingest_row_undecodable r convos e :
  decode_column json_loads (mr_json r) = Raised e ->
  run (ingest_row json_loads b r convos) = Raised e.
Proof. intros H. rewrite ingest_row_cases, H. reflexivity. Qed.

Lemma undecodable_error r :
  undecodable json_loads r = true ->
  exists e, decode_column json_loads (mr_json r) = Raised e.
Proof.
  unfold undecodable.
  destruct (decode_column json_loads (mr_json r)) as [j|e];
    [discriminate|]. now exists e.
Qed.

Lemma ingest_fails rows : forall convos r,
  In r rows -> undecodable json_loads r = true ->
  exists e, run (ingest rows convos) = Raised e.
Proof.
  induction rows as [|r0 rows IH]; intros convos r; [intros []|].
  intros Hin Hbad. rewrite run_ingest_cons.
  destruct (run (ingest_row json_loads b r0 convos)) as [c1|e] eqn:E.
  - destruct Hin as [->|Hin].
    + destruct (undecodable_error _ Hbad) as [e He].
      rewrite (ingest_row_undecodable _ convos He) in E. discriminate.
    + now apply (IH c1 r).
  - now exists e.
Qed.

(** Rows whose payloads decode to objects are ingested without error. *)
Lemma ingest_row_object r convos :
  decodes_to_object json_loads r = true ->
  exists c1, run (ingest_row json_loads b r convos) = Return c1.
Proof.
  unfold decodes_to_object. rewrite ingest_row_cases.
  destruct (decode_column json_loads (mr_json r)) as [j|e];
    [|discriminate].
  destruct j; try discriminate. intros _.
  destruct (mr_conversationId r); [|eauto].
  destruct (accepts b convos r); eauto.
Qed.

Lemma ingest_objects rows : forall convos,
  Forall (fun r => decodes_to_object json_loads r = true) rows ->
  exists c', run (ingest rows convos) = Return c'.
Proof.
  induction rows as [|r0 rows IH]; intros convos Hall.
  - exists convos. reflexivity.
  - inversion Hall as [|? ? H0 Hrest]; subst.
    rewrite run_ingest_cons.
    destruct (ingest_row_object _ convos H0) as [c1 ->].
    now apply IH.
Qed.

Lemma ingest_first_failure pre r post e : forall convos,
  Forall (fun r' => decodes_to_object json_loads r' = true) pre ->
  decode_column json_loads (mr_json r) = Raised e ->
  run (ingest (pre ++ r :: post) convos) = Raised e.
Proof.
  induction pre as [|r0 pre IH]; intros convos Hall Hbad.
  - cbn [app]. rewrite run_ingest_cons.
    now rewrite (ingest_row_undecodable _ convos Hbad).
  - inversion Hall as [|? ? H0 Hrest]; subst.
    cbn [app]. rewrite run_ingest_cons.
    destruct (ingest_row_object _ convos H0) as [c1 ->].
    now apply IH.
Qed.

End IngestorFacts.

(** [fetch_data] returns when the key is there and every payload decodes
    to an object. *)
Lemma fetch_data_returns
    (json_loads : string -> outcome json)
    (get_key : path -> option string -> outcome string)
    db source_dir password key chats ie b w k :
  resolved get_key source_dir password key = Return k ->
  Forall (fun r => decodes_to_object json_loads r = true) (messages db) ->
  exists w' convos,
    fetch_data json_loads get_key db source_dir password key chats ie b w
    = (w', Return (convos, fst (load_all chats (conversations db)))).
Proof.
  intros Hkey Hall. rewrite fetch_data_unfold, Hkey.
  destruct (@ingest_objects json_loads b (messages db)
              (snd (load_all chats (conversations db))) Hall) as [c' ->].
  eauto.
Qed.

Lemma nodup_map_inj {A B} (f : A -> B) l x y :
  NoDup (map f l) -> In x l -> In y l -> f x = f y -> x = y.
Proof.
  induction l as [|a l IH]; simpl; [tauto|].
  intros Hnd Hx Hy Hf. inversion Hnd as [|? ? Hnotin Hnd']; subst.
  destruct Hx as [->|Hx], Hy as [->|Hy]; auto.
  - exfalso. apply Hnotin. rewrite Hf. now apply in_map.
  - exfalso. apply Hnotin. rewrite <- Hf. now apply in_map.
Qed.

(** C8. The payload is decoded before any exclusion rule is looked at: a
    row whose payload does not decode raises in the loop body whatever its
    conversation id, its type, its timer and the retained conversations
    are, and a store that holds such a row makes [fetch_data] raise. *)
Theorem malformed_payload_fails_before_exclusion
    (json_loads : string -> outcome json)
    (get_key : path -> option string -> outcome string)
    db source_dir password key chats ie b w r :
  In r (messages db) ->
  undecodable json_loads r = true ->
  (forall b' convos w0,
     exists e, ingest_row json_loads b' r convos w0 = (w0, Raised e)
               /\ decode_column json_loads (mr_json r) = Raised e)
  /\ exists e,
       snd (fetch_data json_loads get_key db source_dir password key chats
                       ie b w) = Raised e.
Proof.
  intros Hin Hbad. split.
  - intros b' convos w0.
    destruct (@undecodable_error json_loads r Hbad) as [e He]. exists e.
    rewrite ingest_row_pure.
    rewrite (@ingest_row_undecodable json_loads b' r convos e He). auto.
  - rewrite fetch_data_unfold.
    destruct (resolved get_key source_dir password key) as [k|e]; simpl.
    + destruct (@ingest_fails json_loads b (messages db)
                  (snd (load_all chats (conversations db))) r Hin Hbad)
        as [e ->].
      now exists e.
    + now exists (Exit 1).
Qed.

Lemma malformed_payload_fails_before_exclusion_witness :
  accepts false (snd (load_all "" (conversations
                                     (sample_store [malformed_row "m1"]))))
          (malformed_row "m1") = false
  /\ ((forall b' convos w0,
         exists e,
           ingest_row sample_loads b' (malformed_row "m1") convos w0
           = (w0, Raised e)
           /\ decode_column sample_loads (mr_json (malformed_row "m1"))
              = Raised e)
      /\ exists e,
           snd (fetch_data sample_loads sample_get_key
                           (sample_store [malformed_row "m1"]) ["src"] None
                           (Some "00ff") "" false false initial)
           = Raised e).
Proof.
  split; [reflexivity|].
  apply (@malformed_payload_fails_before_exclusion sample_loads
           sample_get_key (sample_store [malformed_row "m1"]) ["src"] None
           (Some "00ff") "" false false initial (malformed_row "m1")).
  - simpl. left. reflexivity.
  - reflexivity.
Defined.

(** C3, as stated, fails: no reading of the exception gives the id of the
    offending row, since two stores that differ in that id alone raise the
    same exception. *)
Lemma error_names_id_counterexample :
  snd (fetch_data sample_loads sample_get_key
                  (sample_store [malformed_row "m1"]) ["src"] None
                  (Some "00ff") "" false false initial)
  = Raised (JSONDecodeError "Expecting value" "not json" 0)
  /\ snd (fetch_data sample_loads sample_get_key
                     (sample_store [malformed_row "m2"]) ["src"] None
                     (Some "00ff") "" false false initial)
     = Raised (JSONDecodeError "Expecting value" "not json" 0)
  /\ ~ exists id_of, names_message_id id_of.
Proof.
  split; [reflexivity|]. split; [reflexivity|].
  intros [id_of H].
  destruct (H sample_loads sample_get_key (sample_store [malformed_row "m1"])
              ["src"] None (Some "00ff") "" false false initial
              (malformed_row "m1")) as [e1 [H1 I1]];
    [now left|reflexivity|].
  destruct (H sample_loads sample_get_key (sample_store [malformed_row "m2"])
              ["src"] None (Some "00ff") "" false false initial
              (malformed_row "m2")) as [e2 [H2 I2]];
    [now left|reflexivity|].
  vm_compute in H1, H2. injection H1 as <-. injection H2 as <-.
  rewrite I1 in I2. discriminate.
Qed.

(** C7. For a message row with a non-zero expiration timer (ids of rows are
    unique): a message with its id is in the output only if "include
    disappearing" is true; and, for a row that the first two exclusion rules
    keep (its conversation is retained, its type is not excluded), a message
    with its id is in the output if and only if the flag is true. *)
Theorem disappearing_iff_opted_in
    (json_loads : string -> outcome json)
    (get_key : path -> option string -> outcome string)
    db source_dir password key chats ie b w w' convos contacts r :
  fetch_data json_loads get_key db source_dir password key chats ie b w
  = (w', Return (convos, contacts)) ->
  NoDup (map mr_id (messages db)) ->
  In r (messages db) ->
  Py.truthy_oint (mr_expireTimer r) = true ->
  (appears r convos -> b = true)
  /\ (forall cid,
        mr_conversationId r = Some cid ->
        Py.truthy_str cid = true ->
        Dict.mem String.eqb cid (snd (load_all chats (conversations db)))
        = true ->
        excluded_type (mr_type r) = false ->
        (appears r convos <-> b = true)).
Proof.
  intros Hfetch Hnd Hin Htimer.
  rewrite fetch_data_unfold in Hfetch.
  destruct (resolved get_key source_dir password key); [|discriminate].
  destruct (run _) as [c'|] eqn:Hrun; [|discriminate].
  injection Hfetch as _ <- _.
  assert (Honly : appears r (prune ie c') -> b = true).
  { intros (k & msgs & m & Hk & Hm & Hid).
    apply prune_in in Hk.
    destruct (@ingest_sound json_loads b _ _ _ _ _ _ Hrun Hk Hm)
      as [(msgs0 & Hk0 & Hm0)|(r' & Hr' & Hacc & Hid')].
    - pose proof (load_all_empty chats (conversations db)) as Hempty.
      rewrite Forall_forall in Hempty. specialize (Hempty _ Hk0).
      simpl in Hempty. subst msgs0. destruct Hm0.
    - assert (r' = r) as ->.
      { apply (@nodup_map_inj _ _ mr_id (messages db)); auto. congruence. }
      unfold accepts in Hacc. destruct (mr_conversationId r); [|discriminate].
      rewrite Htimer in Hacc. destruct b; [reflexivity|].
      simpl in Hacc. rewrite andb_false_r in Hacc. discriminate. }
  split; [exact Honly|].
  intros cid Hcid Htruthy Hmem Htype. split; [exact Honly|].
  intros ->.
  assert (Hacc : accepts true (snd (load_all chats (conversations db))) r
                 = true).
  { unfold accepts. rewrite Hcid, Htruthy, Hmem, Htype, Htimer.
    reflexivity. }
  destruct (@ingest_complete json_loads true _ _ _ _ _ Hrun Hin Hacc Hcid)
    as (msgs & m & Hget & Hm & Hid).
  exists cid, msgs, m. split; [|auto].
  apply (get_in String.eqb String.eqb_eq).
  apply prune_get; [assumption|].
  intros ->. destruct Hm.
Qed.

Lemma disappearing_iff_opted_in_witness :
  (appears timer_row [("c1", [message_of_row "c1" timer_row []])]
   -> true = true)
  /\ (forall cid,
        mr_conversationId timer_row = Some cid ->
        Py.truthy_str cid = true ->
        Dict.mem String.eqb cid
          (snd (load_all "" (conversations (sample_store [timer_row]))))
        = true ->
        excluded_type (mr_type timer_row) = false ->
        (appears timer_row [("c1", [message_of_row "c1" timer_row []])]
         <-> true = true)).
Proof.
  apply (@disappearing_iff_opted_in sample_loads sample_get_key
           (sample_store [timer_row]) ["src"] None (Some "00ff") "" false
           true initial
           (mkWorld (session_events ["src"] "00ff"
                       (conversations (sample_store [timer_row]))) 0)
           [("c1", [message_of_row "c1" timer_row []])]
           (fst (load_all "" (conversations (sample_store [timer_row]))))
           timer_row).
  - reflexivity.
  - simpl. constructor; [intros []|constructor].
  - simpl. left. reflexivity.
  - reflexivity.
Defined.

(** C7, as stated, fails: with "include disappearing" true, a message row
    with a non-zero timer whose type is [keychange] does not appear in the
    output. *)
Lemma disappearing_iff_counterexample :
  Py.truthy_oint (mr_expireTimer keychange_timer_row) = true
  /\ snd (fetch_data sample_loads sample_get_key
                     (sample_store [keychange_timer_row]) ["src"] None
                     (Some "00ff") "" false true initial)
     = Return ([], fst (load_all "" (conversations (sample_store []))))
  /\ ~ (appears keychange_timer_row [] <-> true = true).
Proof.
  split; [reflexivity|]. split; [reflexivity|].
  intros [_ H]. destruct (H eq_refl) as (k & msgs & m & [] & _).
Qed.

(** The side condition on the first two rules is needed: with the flag
    true, a disappearing message of an excluded type is still dropped (and
    its conversation, left empty, is pruned). *)
Lemma disappearing_keychange_dropped :
  snd (fetch_data sample_loads sample_get_key
         (sample_store [msg_row (Some "c1") (Some "keychange") (Some "{}")
                                "m1" (Some 30%Z)])
         ["src"] None (Some "00ff") "" false true initial)
  = Return ([], fst (load_all "" (conversations (sample_store [])))).
Proof. reflexivity. Qed.

(** ** The command *)

Lemma outputs_app t1 t2 : outputs (t1 ++ t2) = (outputs t1 ++ outputs t2)%list.
Proof. apply filter_app. Qed.

Lemma outputs_logs {A} (f : A -> string) l :
  outputs (map (fun x => EvLog (f x)) l) = [].
Proof. induction l; simpl; auto. Qed.

Lemma outputs_session source_dir k rows :
  outputs (session_events source_dir k rows) = [].
Proof.
  unfold session_events. simpl. rewrite outputs_app, outputs_logs.
  reflexivity.
Qed.

(** [fetch_data] creates and writes nothing under the destination. *)
Lemma fetch_data_no_output
    (json_loads : string -> outcome json)
    (get_key : path -> option string -> outcome string)
    db source_dir password key chats ie b w :
  outputs (trace (fst (fetch_data json_loads get_key db source_dir password
                                  key chats ie b w)))
  = outputs (trace w).
Proof.
  rewrite fetch_data_unfold.
  destruct (resolved get_key source_dir password key); simpl;
    rewrite outputs_app.
  - rewrite outputs_session. apply app_nil_r.
  - apply app_nil_r.
Qed.

Section MainFacts.

Variable json_loads : string -> outcome json.
Variable get_key : path -> option string -> outcome string.
Variable now : nat -> string.
Variable help : string.
Variable source_location : path.
Variable absolute : path -> path.
Variable is_file : path -> bool.
Variable render : Args -> path -> Convos -> Contacts -> M unit.

Local Abbreviation main' :=
  (main json_loads get_key now help source_location absolute is_file
        render).

(** Once the checks of lines 74-85 pass, [main] is [fetch_data] followed
    by the failing unpacking. *)
Lemma main_reaching db a w :
  reaches_fetch source_location absolute is_file a = true ->
  main' db a w
  = match fetch_data json_loads get_key db
            (source_dir_of source_location absolute a) (a_password a)
            (a_key a) (a_chats a) (a_include_empty a)
            (a_include_disappearing a) w with
    | (w1, Return _) => (w1, Raised unpack_error)
    | (w1, Raised e) => (w1, Raised e)
    end.
Proof.
  unfold reaches_fetch, main, source_dir_of. intros H.
  apply andb_prop in H. destruct H as [H1 H2].
  rewrite H1, H2. cbn [negb].
  unfold bind at 1.
  destruct (fetch_data _ _ _ _ _ _ _ _ _ _) as [w1 [r|e]]; reflexivity.
Qed.

End MainFacts.

(** C2, as the code has it. [fetch_data] returns a pair and [main] unpacks
    it into three names: every run of [main] that gets to the call of
    [fetch_data] fails. When [fetch_data] returns, the failure is the
    unpacking error; when [fetch_data] itself raises, its exception goes
    through. In no case is anything created or written under the
    destination, the metadata path included, whatever the rendering code
    is. *)
Theorem main_fails_at_unpacking
    (json_loads : string -> outcome json)
    (get_key : path -> option string -> outcome string)
    (now : nat -> string) (help : string) (source_location : path)
    (absolute : path -> path) (is_file : path -> bool)
    (render : Args -> path -> Convos -> Contacts -> M unit)
    db a w :
  reaches_fetch source_location absolute is_file a = true ->
  main json_loads get_key now help source_location absolute is_file render
       db a w
  = match fetch_data json_loads get_key db
            (source_dir_of source_location absolute a) (a_password a)
            (a_key a) (a_chats a) (a_include_empty a)
            (a_include_disappearing a) w with
    | (w1, Return r) => (w1, Raised unpack_error)
    | (w1, Raised e) => (w1, Raised e)
    end
  /\ (forall r : Convos * Contacts, length (tuple_of_fetch r) = 2)
  /\ (exists e,
        snd (main json_loads get_key now help source_location absolute
                  is_file render db a w) = Raised e)
  /\ outputs (trace (fst (main json_loads get_key now help source_location
                               absolute is_file render db a w)))
     = outputs (trace w).
Proof.
  intros Hreach.
  pose proof (main_reaching json_loads get_key now help source_location
                absolute is_file render db a w Hreach) as Hmain.
  pose proof (fetch_data_no_output json_loads get_key db
                (source_dir_of source_location absolute a) (a_password a)
                (a_key a) (a_chats a) (a_include_empty a)
                (a_include_disappearing a) w) as Hout.
  split; [exact Hmain|]. split; [reflexivity|].
  rewrite Hmain.
  destruct (fetch_data _ _ _ _ _ _ _ _ _ _) as [w1 [r|e]]; simpl in *.
  - split; [now exists unpack_error|assumption].
  - split; [now exists e|assumption].
Qed.

Lemma main_fails_at_unpacking_witness :
  main sample_loads sample_get_key sample_now "usage" ["src"]
       sample_absolute sample_is_file sample_render (sample_store [timer_row])
       sample_args initial
  = (mkWorld (session_events ["src"] "00ff"
                (conversations (sample_store [timer_row]))) 0,
     Raised unpack_error)
  /\ outputs (trace (fst (main sample_loads sample_get_key sample_now "usage"
                               ["src"] sample_absolute sample_is_file
                               sample_render (sample_store [timer_row])
                               sample_args initial)))
     = [].
Proof.
  destruct (@main_fails_at_unpacking sample_loads sample_get_key sample_now
              "usage" ["src"] sample_absolute sample_is_file sample_render
              (sample_store [timer_row]) sample_args initial)
    as [Hmain [_ [_ Hout]]].
  - reflexivity.
  - split.
    + rewrite Hmain. reflexivity.
    + exact Hout.
Defined.

(** C2, as stated, fails: a run that gets to the call of [fetch_data] and
    whose key recovery fails ends with [Exit 1], not with the unpacking
    error. *)
Lemma unpacking_error_counterexample :
  reaches_fetch ["src"] sample_absolute sample_is_file no_key_args = true
  /\ snd (main sample_loads sample_get_key sample_now "usage" ["src"]
               sample_absolute sample_is_file sample_render
               (sample_store [timer_row]) no_key_args initial)
     = Raised (Exit 1)
  /\ Exit 1 <> unpack_error.
Proof.
  split; [reflexivity|]. split; [reflexivity|discriminate].
Qed.

(** ** Group Metadata Cross-Referencer *)

Lemma emitted_app {A} (m : M A) w evs :
  trace (fst (m w)) = (trace w ++ evs)%list -> emitted m w = evs.
Proof.
  intros H. unfold emitted. rewrite H.
  rewrite skipn_app, skipn_all, Nat.sub_diag. reflexivity.
Qed.

(** The index maps a service id to a contact that carries it. *)
Lemma index_set_inv k c (d : Dict.t (option string) Contact) :
  c_serviceId c = k ->
  Forall (fun kv => c_serviceId (snd kv) = fst kv) d ->
  Forall (fun kv => c_serviceId (snd kv) = fst kv)
         (Dict.set Py.ostr_eqb k c d).
Proof.
  intros Hc. induction 1 as [|[k' v'] d Hv Hd IH]; simpl.
  - repeat constructor. assumption.
  - destruct (Py.ostr_eqb k k') eqn:E.
    + constructor; [|assumption]. simpl.
      apply ostr_eqb_eq in E. congruence.
    + constructor; assumption.
Qed.

Lemma index_fold_inv l : forall d : Dict.t (option string) Contact,
  Forall (fun kv => c_serviceId (snd kv) = fst kv) d ->
  Forall (fun kv => c_serviceId (snd kv) = fst kv)
         (fold_left (fun d c => Dict.set Py.ostr_eqb (c_serviceId c) c d)
                    l d).
Proof.
  induction l as [|c l IH]; intros d Hd; simpl.
  - assumption.
  - apply IH. now apply index_set_inv.
Qed.

Lemma index_inv contacts :
  Forall (fun kv => c_serviceId (snd kv) = fst kv)
         (index_by_serviceId contacts).
Proof. apply index_fold_inv. constructor. Qed.

Lemma lookup_serviceId contacts sid m :
  Dict.get Py.ostr_eqb (Some sid) (index_by_serviceId contacts) = Some m ->
  c_serviceId m = Some sid.
Proof.
  intros H. apply (get_in Py.ostr_eqb ostr_eqb_eq) in H.
  pose proof (index_inv contacts) as Hinv.
  rewrite Forall_forall in Hinv. apply (Hinv _ H).
Qed.

Lemma mapM_lookup index sids : forall w,
  match mapM (lookup_member index) sids w with
  | (w', Return members) =>
      w' = w
      /\ Forall2 (fun sid m => Dict.get Py.ostr_eqb (Some sid) index = Some m)
                 sids members
  | (w', Raised _) => w' = w
  end.
Proof.
  induction sids as [|sid sids IH]; intros w; simpl.
  - unfold ret. split; constructor.
  - unfold bind, lookup_member at 1.
    destruct (Dict.get Py.ostr_eqb (Some sid) index) as [m|] eqn:E;
      unfold ret, raise; simpl; [|reflexivity].
    specialize (IH w).
    destruct (mapM (lookup_member index) sids w) as [w' [ms|e]]; simpl.
    + destruct IH as [-> IH]. split; [reflexivity|]. now constructor.
    + assumption.
Qed.

Section ExportFacts.

Variable now : nat -> string.
Variable dest : option path.
Variable contacts : Contacts.
Variable owner : Contact.

Lemma export_group_trace key c w :
  exists evs,
    trace (fst (export_group now dest (index_by_serviceId contacts)
                  (filter c_is_group (Dict.values contacts)) owner key c
                  w))
    = (trace w ++ evs)%list
    /\ Forall (group_event contacts owner key c) evs.
Proof.
  unfold export_group, path_div.
  destruct dest as [d|], (c_name c) as [n|] eqn:En;
    try (exists []; split; [simpl; now rewrite app_nil_r|constructor]).
  unfold bind at 1. simpl. unfold bind at 1. simpl. unfold bind at 1.
  pose proof (mapM_lookup (index_by_serviceId contacts) (c_members c)
                (mkWorld (trace w ++ [EvMakedirs (pdiv d n)]) (clock w)))
    as Hmap.
  destruct (mapM _ _ _) as [w' [members|e]].
  - destruct Hmap as [-> Hmembers].
    assert (Hdoc : forall t,
      doc_of_group contacts owner key c
        (mkGroupMeta (Some n) (c_profile_name owner) t
           (map (member_meta key owner
                   (filter c_is_group (Dict.values contacts))) members))).
    { intros t. exists members. rewrite En. auto. }
    unfold bind, datetime_now, emit. simpl.
    destruct members as [|m0 members']; simpl.
    + eexists. split; [rewrite <- !app_assoc; reflexivity|].
      repeat constructor. apply (Hdoc (now (clock w))).
    + eexists. split; [rewrite <- !app_assoc; reflexivity|].
      repeat constructor.
      * apply (Hdoc (now (clock w))).
      * eexists. split; [apply (Hdoc (now (clock w)))|reflexivity].
  - subst w'. exists [EvMakedirs (pdiv d n)]. split; [reflexivity|].
    repeat constructor.
Qed.

Lemma export_trace ic l : forall w,
  incl l contacts ->
  exists evs,
    trace (fst (forM_
                  (fun kc : string * Contact =>
                     let (key, c) := kc in
                     if skipped ic c then ret tt
                     else export_group now dest
                            (index_by_serviceId contacts)
                            (filter c_is_group (Dict.values contacts))
                            owner key c)
                  l w))
    = (trace w ++ evs)%list
    /\ Forall (fun ev => exists key c,
                  In (key, c) contacts /\ skipped ic c = false
                  /\ group_event contacts owner key c ev) evs.
Proof.
  induction l as [|[key c] l IH]; intros w Hincl; simpl.
  - exists []. split; [now rewrite app_nil_r|constructor].
  - assert (Hin : In (key, c) contacts) by (apply Hincl; now left).
    assert (Hl : incl l contacts).
    { intros x Hx. apply Hincl. now right. }
    unfold bind at 1.
    destruct (skipped ic c) eqn:Eskip.
    + unfold ret at 1. apply IH. assumption.
    + destruct (export_group_trace key c w) as (evs1 & Ht1 & Hev1).
      destruct (export_group _ _ _ _ _ _ _ w) as [w1 [[]|e]]; simpl in Ht1.
      * destruct (IH w1 Hl) as (evs2 & Ht2 & Hev2).
        exists (evs1 ++ evs2)%list. split.
        -- rewrite Ht2, Ht1. now rewrite app_assoc.
        -- apply Forall_app. split; [|assumption].
           eapply Forall_impl; [|exact Hev1].
           intros ev Hev. now exists key, c.
      * exists evs1. split; [assumption|].
        eapply Forall_impl; [|exact Hev1].
        intros ev Hev. now exists key, c.
Qed.

(** Every event of an export belongs to a group of the contacts that the
    loop does not skip. *)
Lemma export_events ic w :
  Forall (fun ev => exists key c,
              In (key, c) contacts /\ skipped ic c = false
              /\ group_event contacts owner key c ev)
         (emitted (export_channel_metadata now dest contacts owner ic) w).
Proof.
  destruct (export_trace ic w (incl_refl contacts)) as (evs & Ht & Hev).
  unfold export_channel_metadata, Dict.items.
  erewrite emitted_app by exact Ht. assumption.
Qed.

End ExportFacts.

Lemma written_docs_forall (P : GroupMeta -> Prop) evs :
  Forall (fun ev => match ev with EvWriteJson _ doc => P doc | _ => True end)
         evs ->
  Forall P (written_docs evs).
Proof.
  induction 1 as [|ev evs Hev Hevs IH]; simpl; [constructor|].
  destruct ev; auto.
Qed.

Lemma filter_filter {A} (f g : A -> bool) l :
  filter f (filter g l) = filter (fun x => g x && f x) l.
Proof.
  induction l as [|x l IH]; simpl; [reflexivity|].
  destruct (g x); simpl; [destruct (f x)|]; now rewrite IH.
Qed.

Lemma filter_none {A} (f : A -> bool) l :
  (forall x, f x = false) -> filter f l = [].
Proof.
  intros H. induction l as [|x l IH]; simpl; [reflexivity|].
  now rewrite H.
Qed.

(** The [other_groups] of a member that carries the service id [sid]. *)
Lemma other_groups_of_member contacts owner key m sid :
  c_serviceId m = Some sid ->
  other_groups key owner (filter c_is_group (Dict.values contacts)) m
  = if Py.ostr_eqb (Some sid) (c_serviceId owner) then []
    else groups_sharing contacts key sid.
Proof.
  intros Hsid. unfold other_groups, groups_sharing.
  destruct (Py.ostr_eqb (Some sid) (c_serviceId owner)) eqn:E.
  - rewrite filter_none; [reflexivity|].
    intros g. unfold shares_group. rewrite Hsid, E. simpl.
    now rewrite !andb_false_r.
  - rewrite filter_filter. f_equal. apply filter_ext.
    intros g. unfold shares_group. rewrite Hsid, E. simpl.
    now rewrite andb_true_r.
Qed.

Lemma skipped_is_group ic c : skipped ic c = false -> c_is_group c = true.
Proof.
  unfold skipped. intros H. apply orb_false_elim in H.
  destruct H as [H _]. now apply negb_false_iff in H.
Qed.

Lemma member_records contacts owner key sids members (R : string -> MemberMeta -> Prop) :
  Forall2 (fun sid m =>
             Dict.get Py.ostr_eqb (Some sid) (index_by_serviceId contacts)
             = Some m) sids members ->
  (forall sid m, c_serviceId m = Some sid ->
     R sid (member_meta key owner
              (filter c_is_group (Dict.values contacts)) m)) ->
  Forall2 R sids
          (map (member_meta key owner
                  (filter c_is_group (Dict.values contacts))) members).
Proof.
  intros H HR. induction H as [|sid m sids members Hm _ IH]; simpl.
  - constructor.
  - constructor; [|assumption].
    apply HR. now apply (lookup_serviceId contacts).
Qed.

(** C1, as the code has it. In every nested document written by an export,
    written for a group [c] stored under [key], the record of the member
    with service id [sid] has an empty list when [sid] is the service id of
    the owner, and otherwise lists the names of all the other groups of the
    contacts (other by id) whose member list holds [sid], which may be none.
    A group shared with the owner is listed like any other. *)
Theorem other_groups_redacts_owner_record_only
    (now : nat -> string) dest contacts owner ic w :
  Forall (fun doc =>
            exists key c,
              In (key, c) contacts /\ c_is_group c = true
              /\ gm_name doc = c_name c
              /\ Forall2 (fun sid mm =>
                            mm_other_groups mm
                            = if Py.ostr_eqb (Some sid) (c_serviceId owner)
                              then []
                              else groups_sharing contacts key sid)
                         (c_members c) (gm_members doc))
         (written_docs
            (emitted (export_channel_metadata now dest contacts owner ic) w)).
Proof.
  apply written_docs_forall.
  eapply Forall_impl; [|apply export_events].
  intros ev (key & c & Hin & Hskip & Hev).
  destruct ev; try exact I.
  destruct Hev as (members & Hmembers & Hname & _ & Hrecords).
  exists key, c. repeat split; auto.
  - now apply (skipped_is_group ic).
  - rewrite Hrecords. apply member_records; [assumption|].
    intros sid m Hsid. simpl. now apply other_groups_of_member.
Qed.

(** C1, as stated, fails. With G1 = {O, A, B} and G2 = {A, C, O}, the
    export of G1 with owner O lists G2 for member A. *)
Lemma shared_with_owner_counterexample :
  written_docs
    (emitted (export_channel_metadata sample_now (Some ["out"])
                scenario_contacts owner_O (Some ["G1"])) initial)
  = [mkGroupMeta (Some "G1") (Some "Olga") "2024-01-01T00:00:00"
       [mkMemberMeta (Some "Olga") (Some "Olga") None [];
        mkMemberMeta (Some "Ann") (Some "Ann") None [Some "G2"];
        mkMemberMeta (Some "Bob") (Some "Bob") None []]]
  /\ map (other_groups_of "Ann")
         (written_docs
            (emitted (export_channel_metadata sample_now (Some ["out"])
                        scenario_contacts owner_O (Some ["G1"])) initial))
     <> [[[]]].
Proof.
  split.
  - reflexivity.
  - vm_compute. discriminate.
Qed.

Lemma other_groups_owner key owner all_groups m :
  c_serviceId m = c_serviceId owner ->
  other_groups key owner all_groups m = [].
Proof.
  intros H. unfold other_groups. rewrite filter_none; [reflexivity|].
  intros g. unfold shares_group. rewrite H.
  rewrite (proj2 (ostr_eqb_eq (c_serviceId owner) (c_serviceId owner))
                 eq_refl).
  simpl. now rewrite !andb_false_r.
Qed.

Lemma resolved_with_ids contacts sids members :
  Forall2 (fun sid m =>
             Dict.get Py.ostr_eqb (Some sid) (index_by_serviceId contacts)
             = Some m) sids members ->
  Forall2 (fun sid m =>
             Dict.get Py.ostr_eqb (Some sid) (index_by_serviceId contacts)
             = Some m
             /\ c_serviceId m = Some sid) sids members.
Proof.
  induction 1 as [|sid m sids members Hm _ IH]; constructor; auto.
  split; [assumption|]. now apply (lookup_serviceId contacts).
Qed.

Lemma Forall2_map_r {A B} (f : A -> B) (P : A -> B -> Prop) l :
  (forall x, P x (f x)) -> Forall2 P l (map f l).
Proof. intros H. induction l; simpl; constructor; auto. Qed.

(** C10. Every document an export writes is the document of a group of the
    contacts: it carries the name of the group, and its records are, in
    order, those of the contacts that the member ids of the group resolve
    to (a contact that carries the member id as its service id). In it, the
    record of a member whose service id is the owner's has an empty
    [other_groups]. Every table is the flattening of such a document, and
    the row of a member whose service id is the owner's has an empty
    [other_groups] and [num_shared_groups] 0. *)
Theorem owner_record_has_no_other_groups
    (now : nat -> string) dest contacts owner ic w :
  Forall (fun ev =>
            match ev with
            | EvWriteJson _ doc =>
                exists key c members,
                  In (key, c) contacts /\ c_is_group c = true
                  /\ gm_name doc = c_name c
                  /\ Forall2 (fun sid m =>
                                Dict.get Py.ostr_eqb (Some sid)
                                         (index_by_serviceId contacts)
                                = Some m
                                /\ c_serviceId m = Some sid)
                             (c_members c) members
                  /\ Forall2 (fun m mm =>
                                mm = member_meta key owner
                                       (filter c_is_group
                                               (Dict.values contacts)) m
                                /\ (c_serviceId m = c_serviceId owner ->
                                    mm_other_groups mm = []))
                             members (gm_members doc)
            | EvWriteCsv _ _ rows =>
                exists key c members doc,
                  In (key, c) contacts /\ c_is_group c = true
                  /\ gm_name doc = c_name c
                  /\ Forall2 (fun sid m =>
                                Dict.get Py.ostr_eqb (Some sid)
                                         (index_by_serviceId contacts)
                                = Some m
                                /\ c_serviceId m = Some sid)
                             (c_members c) members
                  /\ Forall2 (fun m row =>
                                row = flat_row doc
                                        (member_meta key owner
                                           (filter c_is_group
                                                   (Dict.values contacts)) m)
                                /\ (c_serviceId m = c_serviceId owner ->
                                    fr_other_groups row = []
                                    /\ fr_num_shared_groups row = 0))
                             members rows
            | _ => True
            end)
         (emitted (export_channel_metadata now dest contacts owner ic) w).
Proof.
  eapply Forall_impl; [|apply export_events].
  intros ev (key & c & Hin & Hskip & Hev).
  pose proof (skipped_is_group ic c Hskip) as Hgroup.
  destruct ev; try exact I.
  - destruct Hev as (members & Hmembers & Hname & _ & Hrecords).
    exists key, c, members. repeat split; auto.
    + now apply resolved_with_ids.
    + rewrite Hrecords. apply Forall2_map_r.
      intros m. split; [reflexivity|]. intros Howner. simpl.
      now apply other_groups_owner.
  - destruct Hev as (doc & (members & Hmembers & Hname & _ & Hrecords) & ->).
    exists key, c, members, doc. repeat split; auto.
    + now apply resolved_with_ids.
    + rewrite Hrecords, map_map. apply Forall2_map_r.
      intros m. split; [reflexivity|]. intros Howner. simpl.
      rewrite (other_groups_owner key owner _ m Howner). auto.
Qed.

(** An allow-list obtained by splitting the empty string holds the empty
    name alone, so every group with another name is skipped. *)
Lemma empty_chats_skips_named_groups c :
  c_name c <> Some "" ->
  skipped (Some (Py.split "," "")) c = true.
Proof.
  intros H. unfold skipped. simpl.
  destruct (c_name c) as [n|]; simpl.
  - destruct (String.eqb_spec n ""); [subst; congruence|].
    simpl. apply orb_true_r.
  - apply orb_true_r.
Qed.

(** C5 on the code. With an empty [--chats], the metadata path of [main]
    passes the allow-list [[""]] and exports no group of the scenario, while
    the export without a restriction writes both groups. *)
Theorem empty_allow_list_exports_nothing :
  Py.split "," "" = [""]
  /\ network_only_path sample_now (Some ["out"]) scenario_contacts owner_O
                       "" initial
     = (initial, Raised (Exit 0))
  /\ map gm_name
         (written_docs
            (emitted (export_channel_metadata sample_now (Some ["out"])
                        scenario_contacts owner_O None) initial))
     = [Some "G1"; Some "G2"].
Proof. repeat split. Qed.

(** * Further properties of the code *)

(** ** Keys of the dictionaries *)

Section DictKeys.
Variables K V : Type.
Variable eqb : K -> K -> bool.
Hypothesis eqb_eq : forall a b, eqb a b = true <-> a = b.

Lemma update_keys k (f : V -> V) d :
  map fst (Dict.update eqb k f d) = map fst d.
Proof.
  induction d as [|[k' v'] d IH]; simpl; [reflexivity|].
  destruct (eqb k k'); simpl; [reflexivity|now rewrite IH].
Qed.

Lemma in_set_keys x k (v : V) d :
  In x (map fst (Dict.set eqb k v d)) -> x = k \/ In x (map fst d).
Proof.
  induction d as [|[k' v'] d IH]; simpl.
  - intros [<-|[]]. now left.
  - destruct (eqb k k') eqn:E; simpl.
    + tauto.
    + intros [H|H]; [tauto|]. destruct (IH H); tauto.
Qed.

Lemma set_keys_incl x k (v : V) d :
  In x (map fst d) -> In x (map fst (Dict.set eqb k v d)).
Proof.
  induction d as [|[k' v'] d IH]; simpl; [tauto|].
  destruct (eqb k k'); simpl; tauto.
Qed.

Lemma set_keys_new k (v : V) d : In k (map fst (Dict.set eqb k v d)).
Proof.
  induction d as [|[k' v'] d IH]; simpl; [now left|].
  destruct (eqb k k') eqn:E; simpl.
  - left. symmetry. now apply eqb_eq.
  - now right.
Qed.

Lemma set_keys_nodup k (v : V) d :
  NoDup (map fst d) -> NoDup (map fst (Dict.set eqb k v d)).
Proof.
  induction d as [|[k' v'] d IH]; simpl; intros Hnd.
  - repeat constructor. intros [].
  - inversion Hnd as [|? ? Hnotin Hnd']; subst.
    destruct (eqb k k') eqn:E; simpl.
    + now constructor.
    + constructor; [|now apply IH].
      intros Hin. apply in_set_keys in Hin. destruct Hin as [->|Hin].
      * rewrite (proj2 (eqb_eq k k) eq_refl) in E. discriminate.
      * contradiction.
Qed.

Lemma in_get k (v : V) d :
  NoDup (map fst d) -> In (k, v) d -> Dict.get eqb k d = Some v.
Proof.
  induction d as [|[k' v'] d IH]; simpl; intros Hnd Hin; [destruct Hin|].
  inversion Hnd as [|? ? Hnotin Hnd']; subst.
  destruct Hin as [[= -> ->]|Hin].
  - now rewrite (proj2 (eqb_eq k k) eq_refl).
  - destruct (eqb k k') eqn:E.
    + apply eqb_eq in E. subst k'. exfalso. apply Hnotin.
      now apply (in_map fst) in Hin.
    + now apply IH.
Qed.

Lemma get_none_keys k (d : Dict.t K V) :
  Dict.get eqb k d = None <-> ~ In k (map fst d).
Proof.
  induction d as [|[k' v'] d IH]; simpl; [tauto|].
  destruct (eqb k k') eqn:E.
  - apply eqb_eq in E. subst. split; [discriminate|tauto].
  - rewrite IH. split.
    + intros H [->|H']; [|tauto].
      rewrite (proj2 (eqb_eq k k) eq_refl) in E. discriminate.
    + tauto.
Qed.

End DictKeys.

(** ** The first loop: contacts and retained conversations *)

Lemma load_all_keys chats rows : forall acc,
  NoDup (map fst (fst acc)) -> NoDup (map fst (snd acc)) ->
  incl (map fst (snd acc)) (map fst (fst acc)) ->
  let res := fold_left (fun acc r => load_step chats (chats_list_of chats)
                                               r acc) rows acc in
  NoDup (map fst (fst res)) /\ NoDup (map fst (snd res))
  /\ incl (map fst (snd res)) (map fst (fst res)).
Proof.
  induction rows as [|r rows IH]; intros [contacts convos] H1 H2 H3;
    cbn [fold_left].
  - auto.
  - apply IH; simpl.
    + rewrite update_keys.
      now apply (set_keys_nodup String.eqb String.eqb_eq).
    + destruct (chat_selected _ _ r); [|assumption].
      now apply (set_keys_nodup String.eqb String.eqb_eq).
    + rewrite update_keys. intros x Hx.
      destruct (chat_selected _ _ r).
      * apply in_set_keys in Hx. destruct Hx as [->|Hx].
        -- apply (set_keys_new String.eqb String.eqb_eq).
        -- apply set_keys_incl. now apply H3.
      * apply set_keys_incl. now apply H3.
Qed.

(** Every contact is stored under its own id. *)
Lemma load_all_own_id chats rows : forall acc : Contacts * Convos,
  Forall (fun kc => c_id (snd kc) = fst kc) (fst acc) ->
  Forall (fun kc => c_id (snd kc) = fst kc)
         (fst (fold_left (fun acc r => load_step chats (chats_list_of chats)
                                                 r acc) rows acc)).
Proof.
  induction rows as [|r rows IH]; intros [contacts convos] H;
    cbn [fold_left]; [assumption|].
  apply IH. simpl in *.
  assert (Hset : Forall (fun kc => c_id (snd kc) = fst kc)
                        (Dict.set String.eqb (cr_id r) (contact_of_row r)
                                  contacts)).
  { clear IH. induction H as [|[k c] d Hc Hd IHd]; simpl.
    - repeat constructor.
    - destruct (String.eqb_spec (cr_id r) k) as [<-|Hne];
        constructor; auto. }
  revert Hset. generalize (Dict.set String.eqb (cr_id r) (contact_of_row r)
                                    contacts).
  intros d Hd. induction Hd as [|[k c] d Hc Hd IHd]; simpl; [constructor|].
  destruct (String.eqb (cr_id r) k); constructor; auto.
  simpl in *. unfold name_fallback. destruct (c_name c); assumption.
Qed.

(** The retained ids are ids of rows that the chat filter selects. *)
Lemma load_all_selected chats rows : forall (acc : Contacts * Convos) k,
  In k (map fst (snd (fold_left
                        (fun acc r => load_step chats (chats_list_of chats)
                                                r acc) rows acc))) ->
  In k (map fst (snd acc))
  \/ exists r, In r rows /\ cr_id r = k
               /\ chat_selected chats (chats_list_of chats) r = true.
Proof.
  induction rows as [|r rows IH]; intros [contacts convos] k;
    cbn [fold_left]; [now left|].
  intros H. apply IH in H. destruct H as [H|(r' & Hr' & Hid & Hsel)].
  - simpl in H. destruct (chat_selected _ _ r) eqn:E.
    + apply in_set_keys in H. destruct H as [->|H]; [|now left].
      right. exists r. repeat split; auto. now left.
    + now left.
  - right. exists r'. repeat split; auto. now right.
Qed.

(** With no chat filter the two dictionaries have the same keys, in the
    same order. *)
Lemma set_keys_same {A B} k (a : A) (b : B) (d1 : Dict.t string A)
    (d2 : Dict.t string B) :
  map fst d1 = map fst d2 ->
  map fst (Dict.set String.eqb k a d1) = map fst (Dict.set String.eqb k b d2).
Proof.
  revert d2. induction d1 as [|[k1 v1] d1 IH]; intros [|[k2 v2] d2]; simpl;
    try discriminate; [reflexivity|].
  intros [= <- H]. destruct (String.eqb k k1); simpl; [now f_equal|].
  f_equal. now apply IH.
Qed.

Lemma load_all_unfiltered rows : forall acc : Contacts * Convos,
  map fst (snd acc) = map fst (fst acc) ->
  let res := fold_left (fun acc r => load_step "" (chats_list_of "") r acc)
                       rows acc in
  map fst (snd res) = map fst (fst res).
Proof.
  induction rows as [|r rows IH]; intros [contacts convos] H;
    cbn [fold_left]; [assumption|].
  apply IH. simpl. rewrite update_keys. now apply set_keys_same.
Qed.

(** ** The second loop: what the buckets hold *)

Section BucketFacts.

Variable json_loads : string -> outcome json.
Variable b : bool.

Lemma ingest_row_step_decoded r convos c1 :
  run (ingest_row json_loads b r convos) = Return c1 ->
  (accepts b convos r = false /\ c1 = convos)
  \/ (accepts b convos r = true
      /\ exists cid fields,
           mr_conversationId r = Some cid
           /\ decode_column json_loads (mr_json r) = Return (JObj fields)
           /\ c1 = Dict.update String.eqb cid
                     (fun l => l ++ [message_of_row cid r fields])%list
                     convos).
Proof.
  rewrite ingest_row_cases.
  destruct (decode_column json_loads (mr_json r)) as [j|e]; [|discriminate].
  destruct (mr_conversationId r) as [cid|] eqn:Ecid.
  - destruct (accepts b convos r) eqn:Eacc.
    + destruct j; try discriminate. intros [= <-].
      right. split; [reflexivity|]. now exists cid, fields.
    + intros [= <-]. now left.
  - intros [= <-]. left. split; [|reflexivity].
    unfold accepts. now rewrite Ecid.
Qed.

Lemma selected_for_update k k' f convos r :
  selected_for b (Dict.update String.eqb k' f convos) k r
  = selected_for b convos k r.
Proof. unfold selected_for. now rewrite accepts_update. Qed.

(** The bucket of [k] grows by the messages of the selected rows of [k],
    in the order of the rows. *)
Lemma ingest_bucket rows : forall convos c' k msgs0,
  run (foldM (ingest_row json_loads b) rows convos) = Return c' ->
  Dict.get String.eqb k convos = Some msgs0 ->
  exists news,
    Dict.get String.eqb k c' = Some (msgs0 ++ news)%list
    /\ Forall2 (from_row json_loads k)
               (filter (selected_for b convos k) rows) news.
Proof.
  induction rows as [|r rows IH]; intros convos c' k msgs0.
  - unfold run. simpl. intros [= <-] Hget. exists [].
    rewrite app_nil_r. split; [assumption|constructor].
  - rewrite run_ingest_cons.
    destruct (run (ingest_row json_loads b r convos)) as [c1|e] eqn:E;
      [|discriminate].
    intros H Hget. cbn [filter].
    destruct (ingest_row_step_decoded _ _ E)
      as [[Hno ->]|[Hacc (cid & fs & Hcid & Hdec & ->)]].
    + unfold selected_for at 1. rewrite Hno. simpl.
      now apply (IH _ _ _ _ H).
    + unfold selected_for at 1. rewrite Hacc, Hcid. simpl.
      destruct (String.eqb_spec cid k) as [->|Hne].
      * destruct (IH _ _ k (msgs0 ++ [message_of_row k r fs])%list H)
          as (news & Hnews & Hall).
        { rewrite get_update_same, Hget. reflexivity. }
        exists (message_of_row k r fs :: news). split.
        -- rewrite Hnews, <- app_assoc. reflexivity.
        -- constructor.
           ++ now exists fs.
           ++ erewrite filter_ext; [exact Hall|].
              intros r'. symmetry. apply selected_for_update.
      * destruct (IH _ _ k msgs0 H) as (news & Hnews & Hall).
        { rewrite (get_update_other String.eqb String.eqb_eq);
            [assumption|congruence]. }
        exists news. split; [assumption|].
        erewrite filter_ext; [exact Hall|].
        intros r'. symmetry. apply selected_for_update.
Qed.

Lemma ingest_keys rows : forall convos c',
  run (foldM (ingest_row json_loads b) rows convos) = Return c' ->
  map fst c' = map fst convos.
Proof.
  induction rows as [|r rows IH]; intros convos c'.
  - unfold run. simpl. now intros [= <-].
  - rewrite run_ingest_cons.
    destruct (run (ingest_row json_loads b r convos)) as [c1|e] eqn:E;
      [|discriminate].
    intros H. rewrite (IH _ _ H).
    destruct (ingest_row_step_decoded _ _ E)
      as [[_ ->]|[_ (cid & fs & _ & _ & ->)]].
    + reflexivity.
    + apply update_keys.
Qed.

End BucketFacts.

Lemma load_all_nodup chats rows :
  NoDup (map fst (fst (load_all chats rows)))
  /\ NoDup (map fst (snd (load_all chats rows)))
  /\ incl (map fst (snd (load_all chats rows)))
          (map fst (fst (load_all chats rows))).
Proof.
  apply (load_all_keys chats rows
           (Dict.empty string Contact, Dict.empty string (list RawMessage)));
    simpl; try constructor. intros x [].
Qed.

Lemma in_all_empty (convos : Convos) k msgs :
  Forall (fun kv => snd kv = []) convos -> In (k, msgs) convos -> msgs = [].
Proof.
  intros H Hin. rewrite Forall_forall in H. apply (H _ Hin).
Qed.

(** What [fetch_data] returns, read as one fact: the contacts of the first
    loop, and buckets that are those of the second loop after the pruner. *)
Lemma fetch_data_returned
    (json_loads : string -> outcome json)
    (get_key : path -> option string -> outcome string)
    db source_dir password key chats ie b w w' convos contacts :
  fetch_data json_loads get_key db source_dir password key chats ie b w
  = (w', Return (convos, contacts)) ->
  contacts = fst (load_all chats (conversations db))
  /\ exists c',
       run (foldM (ingest_row json_loads b) (messages db)
                  (snd (load_all chats (conversations db)))) = Return c'
       /\ convos = prune ie c'.
Proof.
  rewrite fetch_data_unfold.
  destruct (resolved get_key source_dir password key); [|discriminate].
  destruct (run _) as [c'|] eqn:Hrun; [|discriminate].
  intros [= _ <- <-]. split; [reflexivity|]. now exists c'.
Qed.

(** Every returned bucket holds the messages of the selected rows of its
    conversation, in the order of the rows. *)
Lemma returned_bucket_rows
    (json_loads : string -> outcome json)
    (get_key : path -> option string -> outcome string)
    db source_dir password key chats ie b w w' convos contacts k msgs :
  fetch_data json_loads get_key db source_dir password key chats ie b w
  = (w', Return (convos, contacts)) ->
  In (k, msgs) convos ->
  Forall2 (from_row json_loads k)
          (filter (selected_for b (snd (load_all chats (conversations db)))
                                k)
                  (messages db))
          msgs.
Proof.
  intros Hfetch Hin.
  destruct (@fetch_data_returned _ _ _ _ _ _ _ _ _ _ _ _ _ Hfetch)
    as (_ & c' & Hrun & ->).
  apply prune_in in Hin.
  destruct (load_all_nodup chats (conversations db)) as (_ & Hnd & _).
  pose proof (ingest_keys _ _ _ _ Hrun) as Hkeys.
  assert (Hget : Dict.get String.eqb k c' = Some msgs).
  { apply (in_get String.eqb String.eqb_eq); [|assumption].
    now rewrite Hkeys. }
  assert (Hk : In k (map fst (snd (load_all chats (conversations db))))).
  { rewrite <- Hkeys. now apply (in_map fst) in Hin. }
  apply in_map_iff in Hk. destruct Hk as ([k0 msgs0] & Hk0 & Hin0).
  simpl in Hk0. subst k0.
  pose proof (@in_all_empty _ k msgs0
                (load_all_empty chats (conversations db)) Hin0) as ->.
  apply (in_get String.eqb String.eqb_eq) in Hin0; [|assumption].
  destruct (ingest_bucket _ _ _ _ _ Hrun Hin0) as (news & Hnews & Hall).
  simpl in Hnews. congruence.
Qed.

Lemma Forall2_in_r {A B} (P : A -> B -> Prop) l1 l2 y :
  Forall2 P l1 l2 -> In y l2 -> exists x, In x l1 /\ P x y.
Proof.
  induction 1 as [|x y' l1 l2 Hxy _ IH]; simpl; [intros []|].
  intros [<-|Hin].
  - exists x. auto.
  - destruct (IH Hin) as (x' & Hx' & HP). exists x'. auto.
Qed.

Lemma Forall2_weaken {A B} (P Q : A -> B -> Prop) l1 l2 :
  (forall x y, P x y -> Q x y) -> Forall2 P l1 l2 -> Forall2 Q l1 l2.
Proof. intros H. induction 1; constructor; auto. Qed.

Lemma Forall2_map_eq {A B C} (f : A -> C) (g : B -> C) l1 l2 :
  Forall2 (fun x y => g y = f x) l1 l2 -> map g l2 = map f l1.
Proof. induction 1; simpl; congruence. Qed.

Lemma strongly_sorted_filter {A} (R : A -> A -> Prop) (f : A -> bool) l :
  StronglySorted R l -> StronglySorted R (filter f l).
Proof.
  induction 1 as [|x l Hl IH Hx]; simpl; [constructor|].
  destruct (f x); [|assumption].
  constructor; [assumption|].
  rewrite Forall_forall in *. intros y Hy. apply Hx.
  apply filter_In in Hy. tauto.
Qed.

Lemma strongly_sorted_transfer {A B C} (R : C -> C -> Prop)
    (f : A -> C) (g : B -> C) l1 l2 :
  Forall2 (fun x y => g y = f x) l1 l2 ->
  StronglySorted (fun x x' => R (f x) (f x')) l1 ->
  StronglySorted (fun y y' => R (g y) (g y')) l2.
Proof.
  induction 1 as [|x y l1 l2 Hxy Hall IH]; intros Hs; [constructor|].
  inversion Hs as [|? ? Hs' Hx]; subst.
  constructor; [now apply IH|].
  rewrite Forall_forall in *. intros y' Hy'.
  destruct (Forall2_in_r _ Hall Hy') as (x' & Hx' & Heq).
  rewrite Hxy, Heq. now apply Hx.
Qed.

Lemma selected_for_accepts b convos k r :
  selected_for b convos k r = true ->
  accepts b convos r = true /\ mr_conversationId r = Some k.
Proof.
  unfold selected_for. intros H. apply andb_prop in H.
  destruct H as [Hacc Hk]. split; [assumption|].
  now apply ostr_eqb_eq in Hk.
Qed.

(** X1. Each returned bucket holds exactly the rows of its conversation
    that pass the three exclusion rules, once each and in the order of the
    rows, with the columns of the row copied into the message. *)
Theorem bucket_follows_rows
    (json_loads : string -> outcome json)
    (get_key : path -> option string -> outcome string)
    db source_dir password key chats ie b w w' convos contacts k msgs :
  fetch_data json_loads get_key db source_dir password key chats ie b w
  = (w', Return (convos, contacts)) ->
  In (k, msgs) convos ->
  map m_id msgs
  = map mr_id (filter (selected_for b (snd (load_all chats
                                              (conversations db))) k)
                      (messages db))
  /\ Forall2 (fun r m =>
                m_type m = mr_type r /\ m_body m = mr_body r
                /\ m_source m = mr_sourceServiceId r
                /\ m_timestamp m = mr_timestamp r
                /\ m_sent_at m = mr_sent_at r
                /\ m_server_timestamp m = mr_serverTimestamp r)
             (filter (selected_for b (snd (load_all chats
                                             (conversations db))) k)
                     (messages db))
             msgs.
Proof.
  intros Hfetch Hin.
  pose proof (@returned_bucket_rows _ _ _ _ _ _ _ _ _ _ _ _ _ _ _ Hfetch Hin)
    as H.
  split.
  - apply Forall2_map_eq. eapply Forall2_weaken; [|exact H].
    intros r m (fs & _ & ->). reflexivity.
  - eapply Forall2_weaken; [|exact H].
    intros r m (fs & _ & ->). simpl. auto 10.
Qed.

Lemma bucket_follows_rows_witness :
  map m_id [message_of_row "c1" (sent_row "m1" 10) [];
            message_of_row "c1" (sent_row "m2" 20) []]
  = map mr_id (filter (selected_for false
                         (snd (load_all "" (conversations two_message_store)))
                         "c1")
                      (messages two_message_store))
  /\ Forall2 (fun r m =>
                m_type m = mr_type r /\ m_body m = mr_body r
                /\ m_source m = mr_sourceServiceId r
                /\ m_timestamp m = mr_timestamp r
                /\ m_sent_at m = mr_sent_at r
                /\ m_server_timestamp m = mr_serverTimestamp r)
             (filter (selected_for false
                        (snd (load_all "" (conversations two_message_store)))
                        "c1")
                     (messages two_message_store))
             [message_of_row "c1" (sent_row "m1" 10) [];
              message_of_row "c1" (sent_row "m2" 20) []].
Proof.
  apply (@bucket_follows_rows sample_loads sample_get_key two_message_store
           ["src"] None (Some "00ff") "" false false initial
           (mkWorld (session_events ["src"] "00ff"
                       (conversations two_message_store)) 0)
           [("c1", [message_of_row "c1" (sent_row "m1" 10) [];
                    message_of_row "c1" (sent_row "m2" 20) []])]
           (fst (load_all "" (conversations two_message_store)))).
  - reflexivity.
  - left. reflexivity.
Defined.

(** X2. When the rows come ordered by [sent_at], as the query asks, the
    messages of every returned bucket are ordered by [sent_at]. *)
Theorem bucket_sorted_by_sent_at
    (json_loads : string -> outcome json)
    (get_key : path -> option string -> outcome string)
    db source_dir password key chats ie b w w' convos contacts k msgs :
  fetch_data json_loads get_key db source_dir password key chats ie b w
  = (w', Return (convos, contacts)) ->
  StronglySorted
    (fun r1 r2 => sent_at_le (mr_sent_at r1) (mr_sent_at r2)) (messages db) ->
  In (k, msgs) convos ->
  StronglySorted
    (fun m1 m2 => sent_at_le (m_sent_at m1) (m_sent_at m2)) msgs.
Proof.
  intros Hfetch Hsorted Hin.
  pose proof (@returned_bucket_rows _ _ _ _ _ _ _ _ _ _ _ _ _ _ _ Hfetch Hin)
    as H.
  apply (strongly_sorted_transfer sent_at_le mr_sent_at m_sent_at
           (l1 := filter (selected_for b (snd (load_all chats
                                                 (conversations db))) k)
                         (messages db))).
  - eapply Forall2_weaken; [|exact H].
    intros r m (fs & _ & ->). reflexivity.
  - now apply strongly_sorted_filter.
Qed.

Lemma bucket_sorted_by_sent_at_witness :
  StronglySorted
    (fun m1 m2 => sent_at_le (m_sent_at m1) (m_sent_at m2))
    [message_of_row "c1" (sent_row "m1" 10) [];
     message_of_row "c1" (sent_row "m2" 20) []].
Proof.
  apply (@bucket_sorted_by_sent_at sample_loads sample_get_key
           two_message_store ["src"] None (Some "00ff") "" false false
           initial
           (mkWorld (session_events ["src"] "00ff"
                       (conversations two_message_store)) 0)
           [("c1", [message_of_row "c1" (sent_row "m1" 10) [];
                    message_of_row "c1" (sent_row "m2" 20) []])]
           (fst (load_all "" (conversations two_message_store))) "c1").
  - reflexivity.
  - repeat constructor; simpl; lia.
  - left. reflexivity.
Defined.

(** X3. Every message of the returned conversations sits in the bucket of
    its own conversation id, that id is not empty and is the id of a contact,
    and its type is none of [keychange], [profile-change] and [None]. *)
Theorem returned_messages_well_formed
    (json_loads : string -> outcome json)
    (get_key : path -> option string -> outcome string)
    db source_dir password key chats ie b w w' convos contacts k msgs m :
  fetch_data json_loads get_key db source_dir password key chats ie b w
  = (w', Return (convos, contacts)) ->
  In (k, msgs) convos -> In m msgs ->
  m_conversation_id m = k
  /\ k <> ""
  /\ In k (map fst contacts)
  /\ m_type m <> None
  /\ m_type m <> Some "keychange"
  /\ m_type m <> Some "profile-change".
Proof.
  intros Hfetch Hin Hm.
  pose proof (@returned_bucket_rows _ _ _ _ _ _ _ _ _ _ _ _ _ _ _ Hfetch Hin)
    as H.
  destruct (Forall2_in_r _ H Hm) as (r & Hr & fs & _ & ->).
  apply filter_In in Hr. destruct Hr as [_ Hsel].
  apply selected_for_accepts in Hsel. destruct Hsel as [Hacc Hcid].
  assert (Hmem : Dict.mem String.eqb k
                   (snd (load_all chats (conversations db))) = true)
    by (eapply accepts_mem; eassumption).
  unfold accepts in Hacc. rewrite Hcid in Hacc.
  apply andb_prop in Hacc. destruct Hacc as [Hacc _].
  apply andb_prop in Hacc. destruct Hacc as [Hacc Htype].
  apply andb_prop in Hacc. destruct Hacc as [Htruthy _].
  destruct (@fetch_data_returned _ _ _ _ _ _ _ _ _ _ _ _ _ Hfetch)
    as (-> & _).
  split; [reflexivity|]. split.
  { intros ->. discriminate. }
  split.
  { destruct (load_all_nodup chats (conversations db)) as (_ & _ & Hincl).
    apply Hincl. apply mem_get in Hmem. destruct Hmem as [v Hv].
    apply (get_in String.eqb String.eqb_eq) in Hv.
    now apply (in_map fst) in Hv. }
  simpl. apply negb_true_iff in Htype.
  destruct (mr_type r) as [t|]; [|discriminate].
  split; [discriminate|].
  split; intros [= ->]; discriminate.
Qed.

Lemma returned_messages_well_formed_witness :
  m_conversation_id (message_of_row "c1" (sent_row "m1" 10) []) = "c1"
  /\ "c1" <> ""
  /\ In "c1" (map fst (fst (load_all "" (conversations two_message_store))))
  /\ m_type (message_of_row "c1" (sent_row "m1" 10) []) <> None
  /\ m_type (message_of_row "c1" (sent_row "m1" 10) []) <> Some "keychange"
  /\ m_type (message_of_row "c1" (sent_row "m1" 10) [])
     <> Some "profile-change".
Proof.
  apply (@returned_messages_well_formed sample_loads sample_get_key
           two_message_store ["src"] None (Some "00ff") "" false false
           initial
           (mkWorld (session_events ["src"] "00ff"
                       (conversations two_message_store)) 0)
           [("c1", [message_of_row "c1" (sent_row "m1" 10) [];
                    message_of_row "c1" (sent_row "m2" 20) []])]
           (fst (load_all "" (conversations two_message_store))) "c1"
           [message_of_row "c1" (sent_row "m1" 10) [];
            message_of_row "c1" (sent_row "m2" 20) []]).
  - reflexivity.
  - left. reflexivity.
  - left. reflexivity.
Defined.

Lemma nodup_keys_filter {A B} (f : A * B -> bool) (l : list (A * B)) :
  NoDup (map fst l) -> NoDup (map fst (filter f l)).
Proof.
  induction l as [|x l IH]; simpl; [auto|].
  intros Hnd. inversion Hnd as [|? ? Hnotin Hnd']; subst.
  destruct (f x); simpl; [|auto].
  constructor; [|auto].
  intros Hin. apply Hnotin. apply in_map_iff in Hin.
  destruct Hin as (y & Hy & Hin). apply filter_In in Hin.
  rewrite <- Hy. apply in_map. tauto.
Qed.

Lemma prune_keys_incl ie (convos : Convos) k :
  In k (map fst (prune ie convos)) -> In k (map fst convos).
Proof.
  intros H. apply in_map_iff in H. destruct H as ([k' msgs] & <- & Hin).
  apply prune_in in Hin. now apply (in_map fst) in Hin.
Qed.

(** X4. With "include empty" false every returned conversation holds at
    least one message; with "include empty" true the returned conversations
    are all the conversations the chat filter retained, in the same order,
    also the empty ones. *)
Theorem returned_conversations_pruned
    (json_loads : string -> outcome json)
    (get_key : path -> option string -> outcome string)
    db source_dir password key chats ie b w w' convos contacts :
  fetch_data json_loads get_key db source_dir password key chats ie b w
  = (w', Return (convos, contacts)) ->
  (ie = false -> forall k msgs, In (k, msgs) convos -> msgs <> [])
  /\ (ie = true ->
      map fst convos = map fst (snd (load_all chats (conversations db)))).
Proof.
  intros Hfetch.
  destruct (@fetch_data_returned _ _ _ _ _ _ _ _ _ _ _ _ _ Hfetch)
    as (_ & c' & Hrun & ->).
  split.
  - intros -> k msgs Hin. now apply (prune_nonempty c' k).
  - intros ->. unfold prune. simpl. now apply (ingest_keys _ _ _ _ Hrun).
Qed.

Lemma returned_conversations_pruned_witness :
  (false = false ->
   forall k msgs,
     In (k, msgs) [("c1", [message_of_row "c1" (sent_row "m1" 10) [];
                           message_of_row "c1" (sent_row "m2" 20) []])] ->
     msgs <> [])
  /\ (false = true ->
      map fst [("c1", [message_of_row "c1" (sent_row "m1" 10) [];
                       message_of_row "c1" (sent_row "m2" 20) []])]
      = map fst (snd (load_all "" (conversations two_message_store)))).
Proof.
  apply (@returned_conversations_pruned sample_loads sample_get_key
           two_message_store ["src"] None (Some "00ff") "" false false
           initial
           (mkWorld (session_events ["src"] "00ff"
                       (conversations two_message_store)) 0)
           [("c1", [message_of_row "c1" (sent_row "m1" 10) [];
                    message_of_row "c1" (sent_row "m2" 20) []])]
           (fst (load_all "" (conversations two_message_store)))).
  reflexivity.
Defined.

(** X5. In what [fetch_data] returns no id occurs twice, among the contacts
    or among the conversations; every contact is stored under its own id;
    and every conversation id is the id of a contact. *)
Theorem returned_keys_consistent
    (json_loads : string -> outcome json)
    (get_key : path -> option string -> outcome string)
    db source_dir password key chats ie b w w' convos contacts :
  fetch_data json_loads get_key db source_dir password key chats ie b w
  = (w', Return (convos, contacts)) ->
  NoDup (map fst contacts)
  /\ NoDup (map fst convos)
  /\ Forall (fun kc => c_id (snd kc) = fst kc) contacts
  /\ incl (map fst convos) (map fst contacts).
Proof.
  intros Hfetch.
  destruct (@fetch_data_returned _ _ _ _ _ _ _ _ _ _ _ _ _ Hfetch)
    as (-> & c' & Hrun & ->).
  destruct (load_all_nodup chats (conversations db)) as (H1 & H2 & H3).
  pose proof (ingest_keys _ _ _ _ Hrun) as Hkeys.
  repeat split.
  - assumption.
  - unfold prune, Dict.items. destruct (negb ie).
    + apply nodup_keys_filter. now rewrite Hkeys.
    + now rewrite Hkeys.
  - apply load_all_own_id. constructor.
  - intros k Hk. apply prune_keys_incl in Hk. rewrite Hkeys in Hk.
    now apply H3.
Qed.

Lemma returned_keys_consistent_witness :
  NoDup (map fst (fst (load_all "" (conversations two_message_store))))
  /\ NoDup (map fst [("c1", [message_of_row "c1" (sent_row "m1" 10) [];
                             message_of_row "c1" (sent_row "m2" 20) []])])
  /\ Forall (fun kc => c_id (snd kc) = fst kc)
            (fst (load_all "" (conversations two_message_store)))
  /\ incl (map fst [("c1", [message_of_row "c1" (sent_row "m1" 10) [];
                            message_of_row "c1" (sent_row "m2" 20) []])])
          (map fst (fst (load_all "" (conversations two_message_store)))).
Proof.
  apply (@returned_keys_consistent sample_loads sample_get_key
           two_message_store ["src"] None (Some "00ff") "" false false
           initial
           (mkWorld (session_events ["src"] "00ff"
                       (conversations two_message_store)) 0)).
  reflexivity.
Defined.

(** X6. With no chat filter and "include empty" true, the returned
    conversations have the ids of the returned contacts, in the same order:
    every contact has its bucket. *)
Theorem unfiltered_keeps_every_contact
    (json_loads : string -> outcome json)
    (get_key : path -> option string -> outcome string)
    db source_dir password key b w w' convos contacts :
  fetch_data json_loads get_key db source_dir password key "" true b w
  = (w', Return (convos, contacts)) ->
  map fst convos = map fst contacts.
Proof.
  intros Hfetch.
  destruct (@fetch_data_returned _ _ _ _ _ _ _ _ _ _ _ _ _ Hfetch)
    as (-> & c' & Hrun & ->).
  unfold prune. simpl. rewrite (ingest_keys _ _ _ _ Hrun).
  apply (load_all_unfiltered (conversations db)
           (Dict.empty string Contact, Dict.empty string (list RawMessage))).
  reflexivity.
Qed.

Lemma unfiltered_keeps_every_contact_witness :
  map fst [("c1", [message_of_row "c1" (sent_row "m1" 10) [];
                   message_of_row "c1" (sent_row "m2" 20) []]);
           ("c2", [])]
  = map fst (fst (load_all "" (conversations two_message_store))).
Proof.
  apply (@unfiltered_keeps_every_contact sample_loads sample_get_key
           two_message_store ["src"] None (Some "00ff") false initial
           (mkWorld (session_events ["src"] "00ff"
                       (conversations two_message_store)) 0)).
  reflexivity.
Defined.

(** X7. With a chat filter, every returned conversation is that of a
    conversation row whose name or profile name is, as a whole and with its
    case, one of the comma-separated names. *)
Theorem chat_filter_respected
    (json_loads : string -> outcome json)
    (get_key : path -> option string -> outcome string)
    db source_dir password key chats ie b w w' convos contacts k :
  fetch_data json_loads get_key db source_dir password key chats ie b w
  = (w', Return (convos, contacts)) ->
  chats <> "" ->
  In k (map fst convos) ->
  exists r, In r (conversations db) /\ cr_id r = k
            /\ (Py.opt_in (cr_name r) (Py.split "," chats)
                || Py.opt_in (cr_profileName r) (Py.split "," chats)) = true.
Proof.
  intros Hfetch Hchats Hk.
  destruct (@fetch_data_returned _ _ _ _ _ _ _ _ _ _ _ _ _ Hfetch)
    as (_ & c' & Hrun & ->).
  apply prune_keys_incl in Hk. rewrite (ingest_keys _ _ _ _ Hrun) in Hk.
  apply load_all_selected in Hk.
  destruct Hk as [[]|(r & Hr & Hid & Hsel)].
  exists r. repeat split; auto.
  unfold chat_selected, chats_list_of in Hsel.
  destruct chats as [|c chats']; [congruence|].
  exact Hsel.
Qed.

Lemma chat_filter_respected_witness :
  exists r, In r (conversations two_message_store) /\ cr_id r = "c1"
            /\ (Py.opt_in (cr_name r) (Py.split "," "Bob,Ann")
                || Py.opt_in (cr_profileName r) (Py.split "," "Bob,Ann"))
               = true.
Proof.
  apply (@chat_filter_respected sample_loads sample_get_key
           two_message_store ["src"] None (Some "00ff") "Bob,Ann" false
           false initial
           (mkWorld (session_events ["src"] "00ff"
                       (conversations two_message_store)) 0)
           [("c1", [message_of_row "c1" (sent_row "m1" 10) [];
                    message_of_row "c1" (sent_row "m2" 20) []])]
           (fst (load_all "Bob,Ann" (conversations two_message_store)))).
  - reflexivity.
  - discriminate.
  - left. reflexivity.
Defined.

(** X8. When no key is given and the key recovery raises, [fetch_data]
    reports the failure once and exits with code 1; the database is neither
    opened nor queried. *)
Theorem key_recovery_failure_exits
    (json_loads : string -> outcome json)
    (get_key : path -> option string -> outcome string)
    db source_dir password chats ie b w e :
  get_key source_dir password = Raised e ->
  fetch_data json_loads get_key db source_dir password None chats ie b w
  = (mkWorld (trace w ++ [EvSechoDecryptFailed e])%list (clock w),
     Raised (Exit 1)).
Proof.
  intros H. rewrite fetch_data_unfold. simpl. now rewrite H.
Qed.

Lemma key_recovery_failure_exits_witness :
  fetch_data sample_loads sample_get_key two_message_store ["src"] None None
             "" false false initial
  = (mkWorld (trace initial
              ++ [EvSechoDecryptFailed (OtherError "no key")])%list
             (clock initial),
     Raised (Exit 1)).
Proof.
  apply (@key_recovery_failure_exits sample_loads sample_get_key
           two_message_store ["src"] None "" false false initial
           (OtherError "no key")).
  reflexivity.
Defined.

Lemma run_ingest_app (json_loads : string -> outcome json) b pre rest :
  forall convos,
  run (foldM (ingest_row json_loads b) (pre ++ rest) convos)
  = match run (foldM (ingest_row json_loads b) pre convos) with
    | Return c1 => run (foldM (ingest_row json_loads b) rest c1)
    | Raised e => Raised e
    end.
Proof.
  induction pre as [|r pre IH]; intros convos; cbn [app].
  - reflexivity.
  - rewrite !run_ingest_cons.
    destruct (run (ingest_row json_loads b r convos)); [apply IH|reflexivity].
Qed.



(** ** Member lists *)

Lemma split_nonempty sep s : Py.split sep s <> [].
Proof.
  destruct s as [|c s]; simpl; [discriminate|].
  destruct (Ascii.eqb c sep); [discriminate|].
  destruct (Py.split sep s); discriminate.
Qed.

Lemma concat_split sep s :
  String.concat (String sep EmptyString) (Py.split sep s) = s.
Proof.
  induction s as [|c s IH]; simpl; [reflexivity|].
  destruct (Ascii.eqb_spec c sep) as [->|Hne].
  - pose proof (split_nonempty sep s) as Hne.
    cbn [String.concat]. destruct (Py.split sep s) as [|h t];
      [congruence|].
    rewrite IH. reflexivity.
  - destruct (Py.split sep s) as [|h t] eqn:E.
    + now apply split_nonempty in E.
    + cbn [String.concat] in *. destruct t as [|h' t'].
      * now rewrite IH.
      * simpl. now rewrite <- IH.
Qed.

Lemma split_no_sep sep s :
  Forall (fun x => has_char sep x = false) (Py.split sep s).
Proof.
  induction s as [|c s IH]; simpl.
  - repeat constructor.
  - destruct (Ascii.eqb c sep) eqn:E.
    + constructor; [reflexivity|assumption].
    + destruct (Py.split sep s) as [|h t]; inversion IH; subst;
        repeat constructor; simpl; rewrite ?E; auto.
Qed.

(** X11. The member list of a contact is the members column cut at every
    space: joined again with spaces it gives the column back, and no member
    id holds a space. A column that is NULL or empty gives no members. *)
Theorem members_round_trip (r : ConvRow) :
  (cr_members r = None \/ cr_members r = Some "" ->
   c_members (contact_of_row r) = [])
  /\ (forall s, cr_members r = Some s -> s <> "" ->
        String.concat " " (c_members (contact_of_row r)) = s
        /\ c_members (contact_of_row r) <> []
        /\ Forall (fun m => has_char " " m = false)
                  (c_members (contact_of_row r))).
Proof.
  unfold contact_of_row. simpl. split.
  - intros [->| ->]; reflexivity.
  - intros s -> Hs. unfold Py.truthy_str.
    destruct (String.eqb_spec s ""); [contradiction|]. simpl.
    split; [apply concat_split|].
    split; [apply split_nonempty|apply split_no_sep].
Qed.

Lemma members_round_trip_witness :
  (cr_members group_row = None \/ cr_members group_row = Some "" ->
   c_members (contact_of_row group_row) = [])
  /\ (String.concat " " (c_members (contact_of_row group_row)) = "sO sA sB"
      /\ c_members (contact_of_row group_row) <> []
      /\ Forall (fun m => has_char " " m = false)
                (c_members (contact_of_row group_row))).
Proof.
  destruct (members_round_trip group_row) as [H1 H2].
  split; [exact H1|].
  apply (H2 "sO sA sB"); [reflexivity|discriminate].
Defined.

(** ** The export of one group *)

Lemma mapM_lookup_pure index sids : forall w,
  mapM (lookup_member index) sids w = (w, resolve_members index sids).
Proof.
  unfold resolve_members, run.
  induction sids as [|sid sids IH]; intros w; simpl; [reflexivity|].
  unfold bind, lookup_member at 1 3.
  destruct (Dict.get Py.ostr_eqb (Some sid) index); unfold ret, raise;
    simpl; [|reflexivity].
  rewrite (IH w), (IH initial). simpl.
  destruct (snd (mapM (lookup_member index) sids initial)); reflexivity.
Qed.

Lemma resolve_members_cons index sid sids :
  resolve_members index (sid :: sids)
  = match Dict.get Py.ostr_eqb (Some sid) index with
    | Some c =>
        match resolve_members index sids with
        | Return cs => Return (c :: cs)
        | Raised e => Raised e
        end
    | None => Raised (KeyError sid)
    end.
Proof.
  unfold resolve_members at 1, run. simpl.
  unfold bind, lookup_member at 1.
  destruct (Dict.get Py.ostr_eqb (Some sid) index); unfold ret, raise;
    simpl; [|reflexivity].
  rewrite mapM_lookup_pure. simpl.
  destruct (resolve_members index sids); reflexivity.
Qed.

Lemma resolve_members_all index sids :
  Forall (fun sid => Dict.get Py.ostr_eqb (Some sid) index <> None) sids ->
  exists members,
    resolve_members index sids = Return members
    /\ length members = length sids.
Proof.
  induction 1 as [|sid sids Hsid _ (members & Hm & Hlen)].
  - exists []. split; reflexivity.
  - rewrite resolve_members_cons.
    destruct (Dict.get Py.ostr_eqb (Some sid) index) as [c|]; [|congruence].
    rewrite Hm. exists (c :: members). simpl. auto.
Qed.


(** The keys of the index are the service ids of the contacts. *)
Lemma index_fold_keys l : forall (d : Dict.t (option string) Contact) k,
  In k (map fst (fold_left
                   (fun d c => Dict.set Py.ostr_eqb (c_serviceId c) c d)
                   l d))
  <-> In k (map fst d) \/ exists c, In c l /\ c_serviceId c = k.
Proof.
  induction l as [|c l IH]; intros d k; simpl.
  - split; [now left|]. intros [H|(c & [] & _)]. exact H.
  - rewrite IH. split.
    + intros [H|(c' & Hc' & Hk)].
      * apply in_set_keys in H. destruct H as [->|H]; [|now left].
        right. exists c. auto.
      * right. exists c'. auto.
    + intros [H|(c' & [<-|Hc'] & Hk)].
      * left. now apply set_keys_incl.
      * left. subst k. apply (set_keys_new Py.ostr_eqb ostr_eqb_eq).
      * right. exists c'. auto.
Qed.

Lemma index_lookup_none contacts sid :
  Dict.get Py.ostr_eqb (Some sid) (index_by_serviceId contacts) = None
  <-> forall kc, In kc contacts -> c_serviceId (snd kc) <> Some sid.
Proof.
  rewrite (get_none_keys Py.ostr_eqb ostr_eqb_eq).
  unfold index_by_serviceId. rewrite index_fold_keys. simpl. split.
  - intros H kc Hkc Hsid. apply H. right. exists (snd kc).
    split; [now apply in_map|assumption].
  - intros H [[]|(c & Hc & Hsid)].
    apply in_map_iff in Hc. destruct Hc as (kc & <- & Hkc).
    now apply (H kc).
Qed.

Section GroupExport.

Variable now : nat -> string.
Variable contacts : Contacts.
Variable owner : Contact.

(** The export of one group, case by case. *)
Lemma export_group_eq d n key c w :
  c_name c = Some n ->
  export_group now (Some d) (index_by_serviceId contacts)
               (filter c_is_group (Dict.values contacts)) owner key c w
  = match resolve_members (index_by_serviceId contacts) (c_members c) with
    | Raised e =>
        (mkWorld (trace w ++ [EvMakedirs (pdiv d n)])%list (clock w),
         Raised e)
    | Return [] =>
        (mkWorld (trace w
                  ++ group_prelude (pdiv d n)
                       (group_doc contacts owner key c (now (clock w)) []))%list
                 (S (clock w)),
         Raised (IndexError "list index out of range"))
    | Return (m :: ms) =>
        (mkWorld (trace w
                  ++ group_prelude (pdiv d n)
                       (group_doc contacts owner key c (now (clock w))
                                  (m :: ms))
                  ++ [group_table (pdiv d n)
                        (group_doc contacts owner key c (now (clock w))
                                   (m :: ms))])%list
                 (S (clock w)),
         Return tt)
    end.
Proof.
  intros Hn. unfold export_group, path_div. rewrite Hn.
  unfold bind at 1. simpl. unfold bind at 1. simpl. unfold bind at 1.
  rewrite mapM_lookup_pure.
  destruct (resolve_members _ _) as [[|m ms]|e]; [| |reflexivity].
  - unfold bind, datetime_now, emit, group_prelude, group_doc. simpl.
    rewrite Hn, <- !app_assoc. reflexivity.
  - unfold bind, datetime_now, emit, group_prelude, group_table, group_doc.
    simpl. rewrite Hn, <- !app_assoc. reflexivity.
Qed.

Lemma export_group_no_path dest key c w :
  dest = None \/ c_name c = None ->
  export_group now dest (index_by_serviceId contacts)
               (filter c_is_group (Dict.values contacts)) owner key c w
  = (w, Raised (TypeError "unsupported operand type(s) for /")).
Proof.
  unfold export_group, path_div.
  intros [->| ->]; [destruct (c_name c)|destruct dest]; reflexivity.
Qed.

(** The export goes through the contacts in order: skipped contacts do
    nothing, and the first failure ends it. *)
Lemma export_unfold dest ic w :
  export_channel_metadata now dest contacts owner ic w
  = forM_ (export_body now dest contacts owner ic) contacts w.
Proof. reflexivity. Qed.

Lemma forM_skipped dest ic l : forall w,
  Forall (fun kc => skipped ic (snd kc) = true) l ->
  forM_ (export_body now dest contacts owner ic) l w = (w, Return tt).
Proof.
  induction 1 as [|[key c] l Hc _ IH]; simpl; [reflexivity|].
  unfold bind. simpl in Hc. rewrite Hc. unfold ret at 1. exact IH.
Qed.


End GroupExport.

(** ** Error paths of the export *)







(** X15. When every contact is skipped, because none is a group or because
    no group name is in the allow-list, the export returns and does
    nothing. *)
Theorem nothing_to_export
    (now : nat -> string) dest contacts owner ic w :
  (forall kc, In kc contacts ->
     c_is_group (snd kc) = false
     \/ exists l, ic = Some l /\ Py.opt_in (c_name (snd kc)) l = false) ->
  export_channel_metadata now dest contacts owner ic w = (w, Return tt).
Proof.
  intros H. rewrite export_unfold. apply forM_skipped.
  apply Forall_forall. intros kc Hkc. unfold skipped.
  destruct (H kc Hkc) as [->|(l & -> & ->)]; [reflexivity|].
  apply orb_true_r.
Qed.

Lemma nothing_to_export_witness :
  export_channel_metadata sample_now (Some ["out"]) scenario_contacts
                          owner_O (Some ["G3"]) initial
  = (initial, Return tt).
Proof.
  apply (@nothing_to_export sample_now (Some ["out"]) scenario_contacts
           owner_O (Some ["G3"]) initial).
  intros kc [<-|[<-|[<-|[<-|[<-|[<-|[]]]]]]];
    try (left; reflexivity);
    right; exists ["G3"]; split; reflexivity.
Defined.

(** X16. Member ids resolve to the last contact that carries the id as its
    service id: when several contacts share a service id, the index keeps the
    last of them. *)
Theorem index_last_wins (contacts : Contacts) pre kc post :
  contacts = (pre ++ kc :: post)%list ->
  (forall kc', In kc' post ->
     c_serviceId (snd kc') <> c_serviceId (snd kc)) ->
  Dict.get Py.ostr_eqb (c_serviceId (snd kc)) (index_by_serviceId contacts)
  = Some (snd kc).
Proof.
  intros -> Hpost. unfold index_by_serviceId, Dict.values.
  rewrite map_app, fold_left_app. cbn [map fold_left].
  generalize (fold_left
                (fun d c => Dict.set Py.ostr_eqb (c_serviceId c) c d)
                (map snd pre) (Dict.empty (option string) Contact)).
  intros d0.
  assert (Hget : Dict.get Py.ostr_eqb (c_serviceId (snd kc))
                   (Dict.set Py.ostr_eqb (c_serviceId (snd kc)) (snd kc) d0)
                 = Some (snd kc))
    by apply (get_set_same Py.ostr_eqb ostr_eqb_eq).
  revert Hget.
  generalize (Dict.set Py.ostr_eqb (c_serviceId (snd kc)) (snd kc) d0).
  induction post as [|kc' post IH]; intros d Hget; simpl; [assumption|].
  apply IH.
  - intros kc'' H. apply Hpost. now right.
  - rewrite (get_set_other Py.ostr_eqb ostr_eqb_eq); [assumption|].
    intros Heq. apply (Hpost kc'); [now left|congruence].
Qed.

Lemma index_last_wins_witness :
  Dict.get Py.ostr_eqb (c_serviceId (snd ("g2", group "g2" "G2" ["sA"])))
           (index_by_serviceId
              [("g1", group "g1" "G1" ["sO"]); ("g2", group "g2" "G2" ["sA"]);
               ("o", owner_O)])
  = Some (snd ("g2", group "g2" "G2" ["sA"])).
Proof.
  apply (@index_last_wins
           [("g1", group "g1" "G1" ["sO"]); ("g2", group "g2" "G2" ["sA"]);
            ("o", owner_O)]
           [("g1", group "g1" "G1" ["sO"])] ("g2", group "g2" "G2" ["sA"])
           [("o", owner_O)]).
  - reflexivity.
  - intros kc' [<-|[]]. discriminate.
Defined.

(** ** What an export writes, and where *)

Lemma emitted_nothing {A} (m : M A) w : fst (m w) = w -> emitted m w = [].
Proof.
  intros H. unfold emitted. rewrite H. apply skipn_all.
Qed.

Section ExportShape.

Variable now : nat -> string.
Variable dest : option path.
Variable contacts : Contacts.
Variable owner : Contact.
Variable ic : option (list string).

Lemma export_group_emitted key c w :
  emitted (export_group now dest (index_by_serviceId contacts)
             (filter c_is_group (Dict.values contacts)) owner key c) w
  = match dest, c_name c with
    | Some d, Some n =>
        match resolve_members (index_by_serviceId contacts) (c_members c)
        with
        | Raised _ => [EvMakedirs (pdiv d n)]
        | Return [] =>
            group_prelude (pdiv d n)
              (group_doc contacts owner key c (now (clock w)) [])
        | Return (m :: ms) =>
            (group_prelude (pdiv d n)
               (group_doc contacts owner key c (now (clock w)) (m :: ms))
             ++ [group_table (pdiv d n)
                   (group_doc contacts owner key c (now (clock w))
                              (m :: ms))])%list
        end
    | _, _ => []
    end.
Proof.
  destruct dest as [d|] eqn:Ed.
  - destruct (c_name c) as [n|] eqn:En.
    + apply emitted_app.
      rewrite (@export_group_eq now contacts owner d n key c w En).
      destruct (resolve_members _ _) as [[|m ms]|e]; reflexivity.
    + apply emitted_nothing.
      rewrite (@export_group_no_path now contacts owner (Some d) key c w);
        auto.
  - apply emitted_nothing.
    rewrite (@export_group_no_path now contacts owner None key c w); auto.
Qed.

(** A property of the events of every exported group is a property of the
    events of the export. *)
Lemma export_events_gen (P : string -> Contact -> event -> Prop) :
  (forall key c w,
     In (key, c) contacts -> skipped ic c = false ->
     Forall (P key c)
            (emitted (export_group now dest (index_by_serviceId contacts)
                        (filter c_is_group (Dict.values contacts)) owner
                        key c) w)) ->
  forall w,
    Forall (fun ev => exists key c,
                In (key, c) contacts /\ skipped ic c = false /\ P key c ev)
           (emitted (export_channel_metadata now dest contacts owner ic) w).
Proof.
  intros HP w.
  assert (H : forall l w, incl l contacts ->
            exists evs,
              trace (fst (forM_ (export_body now dest contacts owner ic) l w))
              = (trace w ++ evs)%list
              /\ Forall (fun ev => exists key c,
                           In (key, c) contacts /\ skipped ic c = false
                           /\ P key c ev) evs).
  { clear w. induction l as [|[key c] l IH]; intros w Hincl; simpl.
    - exists []. split; [now rewrite app_nil_r|constructor].
    - assert (Hin : In (key, c) contacts) by (apply Hincl; now left).
      assert (Hl : incl l contacts).
      { intros x Hx. apply Hincl. now right. }
      unfold bind at 1.
      destruct (skipped ic c) eqn:Eskip.
      + unfold ret at 1. now apply IH.
      + destruct (export_group_trace now dest contacts owner key c w)
          as (evs1 & Ht1 & _).
        pose proof (HP key c w Hin Eskip) as HP1.
        erewrite emitted_app in HP1 by exact Ht1.
        destruct (export_group _ _ _ _ _ _ _ w) as [w1 [[]|e]];
          simpl in Ht1.
        * destruct (IH w1 Hl) as (evs2 & Ht2 & Hev2).
          exists (evs1 ++ evs2)%list. split.
          -- rewrite Ht2, Ht1. now rewrite app_assoc.
          -- apply Forall_app. split; [|assumption].
             eapply Forall_impl; [|exact HP1].
             intros ev Hev. now exists key, c.
        * exists evs1. split; [assumption|].
          eapply Forall_impl; [|exact HP1].
          intros ev Hev. now exists key, c. }
  destruct (H contacts w (incl_refl contacts)) as (evs & Ht & Hev).
  change (export_channel_metadata now dest contacts owner ic)
    with (forM_ (export_body now dest contacts owner ic) contacts).
  erewrite emitted_app by exact Ht. assumption.
Qed.

End ExportShape.

Lemma resolve_members_length index sids members :
  resolve_members index sids = Return members ->
  length members = length sids.
Proof.
  revert members. induction sids as [|sid sids IH]; intros members.
  - unfold resolve_members, run. simpl. now intros [= <-].
  - rewrite resolve_members_cons.
    destruct (Dict.get Py.ostr_eqb (Some sid) index); [|discriminate].
    destruct (resolve_members index sids) as [ms|]; [|discriminate].
    intros [= <-]. simpl. f_equal. now apply IH.
Qed.

Lemma skipped_allow_list ic c l :
  skipped ic c = false -> ic = Some l ->
  exists n, c_name c = Some n /\ In n l.
Proof.
  unfold skipped. intros H ->. apply orb_false_elim in H.
  destruct H as [_ H]. apply negb_false_iff in H.
  destruct (c_name c) as [n|]; [|discriminate]. simpl in H.
  exists n. split; [reflexivity|].
  unfold Py.str_in in H. apply existsb_exists in H.
  destruct H as (x & Hx & Heq). apply String.eqb_eq in Heq. now subst.
Qed.

(** X17. Every directory creation, file opening and write of an export is
    called with the path expression [dest / name], [dest / name / meta.json]
    or [dest / name / members.csv] of a contact that is a group and whose
    name is in the allow-list when there is one; the export makes no such
    call for any other contact. Paths are the expressions passed to the
    calls, not locations resolved on a disk. *)
Theorem export_calls_only_for_groups
    (now : nat -> string) dest contacts owner ic w :
  Forall (fun ev =>
            exists key c d n,
              In (key, c) contacts
              /\ c_is_group c = true
              /\ dest = Some d /\ c_name c = Some n
              /\ (forall l, ic = Some l -> In n l)
              /\ (event_path ev = Some (pdiv d n)
                  \/ event_path ev = Some (pdiv (pdiv d n) "meta.json")
                  \/ event_path ev = Some (pdiv (pdiv d n) "members.csv")))
         (emitted (export_channel_metadata now dest contacts owner ic) w).
Proof.
  eapply Forall_impl;
    [|apply (export_events_gen now dest contacts owner ic
               (fun key c ev =>
                  exists d n,
                    dest = Some d /\ c_name c = Some n
                    /\ (event_path ev = Some (pdiv d n)
                        \/ event_path ev
                           = Some (pdiv (pdiv d n) "meta.json")
                        \/ event_path ev
                           = Some (pdiv (pdiv d n) "members.csv"))))].
  - intros ev (key & c & Hin & Hskip & d & n & Hd & Hn & Hp).
    exists key, c, d, n. repeat split; auto.
    + now apply (skipped_is_group ic).
    + intros l Hl. destruct (skipped_allow_list _ Hskip Hl) as (n' & Hn' & H).
      congruence.
  - intros key c w0 Hin Hskip. rewrite export_group_emitted.
    destruct dest as [d|]; [|constructor].
    destruct (c_name c) as [n|]; [|constructor].
    assert (Hpre : forall doc,
              Forall (fun ev => exists d0 n0,
                        Some d = Some d0 /\ Some n = Some n0
                        /\ (event_path ev = Some (pdiv d0 n0)
                            \/ event_path ev
                               = Some (pdiv (pdiv d0 n0) "meta.json")
                            \/ event_path ev
                               = Some (pdiv (pdiv d0 n0) "members.csv")))
                     (group_prelude (pdiv d n) doc)).
    { intros doc. unfold group_prelude.
      repeat constructor; exists d, n; simpl; auto. }
    destruct (resolve_members _ _) as [[|m ms]|e].
    + apply Hpre.
    + apply Forall_app. split; [apply Hpre|].
      repeat constructor. exists d, n. simpl. auto.
    + repeat constructor. exists d, n. simpl. auto.
Qed.

(** X18. Every table an export writes has the eight columns of the
    flattened record and one row for each member id of its group, at least
    one; each row repeats the name of the group and the profile name of the
    owner, all rows carry the same export time, and [num_shared_groups] is
    the length of [other_groups]. *)
Theorem table_rows_flatten_group
    (now : nat -> string) dest contacts owner ic w :
  Forall (fun ev =>
            match ev with
            | EvWriteCsv _ fieldnames rows =>
                fieldnames = flat_fieldnames
                /\ rows <> []
                /\ exists key c t,
                     In (key, c) contacts
                     /\ length rows = length (c_members c)
                     /\ Forall (fun row =>
                                  fr_group_name row = c_name c
                                  /\ fr_exported_by row = c_profile_name owner
                                  /\ fr_exported_on row = t
                                  /\ fr_num_shared_groups row
                                     = length (fr_other_groups row))
                               rows
            | _ => True
            end)
         (emitted (export_channel_metadata now dest contacts owner ic) w).
Proof.
  eapply Forall_impl;
    [|apply (export_events_gen now dest contacts owner ic
               (fun key c ev =>
                  match ev with
                  | EvWriteCsv _ fieldnames rows =>
                      fieldnames = flat_fieldnames
                      /\ rows <> []
                      /\ exists t,
                           length rows = length (c_members c)
                           /\ Forall (fun row =>
                                fr_group_name row = c_name c
                                /\ fr_exported_by row = c_profile_name owner
                                /\ fr_exported_on row = t
                                /\ fr_num_shared_groups row
                                   = length (fr_other_groups row)) rows
                  | _ => True
                  end))].
  - intros ev (key & c & Hin & _ & Hev). destruct ev; auto.
    destruct Hev as (Hf & Hne & t & Hlen & Hrows).
    repeat split; auto. now exists key, c, t.
  - intros key c w0 Hin Hskip. rewrite export_group_emitted.
    destruct dest as [d|]; [|constructor].
    destruct (c_name c) as [n|] eqn:En; [|constructor].
    destruct (resolve_members _ _) as [[|m ms]|e] eqn:Eres.
    + repeat constructor.
    + apply Forall_app. split; [repeat constructor|].
      constructor; [|constructor]. unfold group_table.
      split; [reflexivity|]. split; [discriminate|].
      exists (now (clock w0)). split.
      * unfold group_doc. cbn [gm_members]. rewrite !length_map.
        now apply resolve_members_length in Eres.
      * unfold group_doc. cbn [gm_members].
        apply Forall_forall. intros row Hrow.
        apply in_map_iff in Hrow. destruct Hrow as (mm & <- & _).
        simpl. rewrite En. repeat split; reflexivity.
    + repeat constructor.
Qed.

Lemma written_docs_app t1 t2 :
  written_docs (t1 ++ t2) = (written_docs t1 ++ written_docs t2)%list.
Proof.
  induction t1 as [|e t1 IH]; simpl; [reflexivity|].
  destruct e; simpl; rewrite ?IH; reflexivity.
Qed.

Lemma export_all_succeed (now : nat -> string) d contacts owner ic l :
  (forall kc, In kc l -> skipped ic (snd kc) = false ->
     c_name (snd kc) <> None
     /\ c_members (snd kc) <> []
     /\ Forall (fun sid =>
                  Dict.get Py.ostr_eqb (Some sid) (index_by_serviceId contacts)
                  <> None)
               (c_members (snd kc))) ->
  forall w,
  exists evs,
    forM_ (export_body now (Some d) contacts owner ic) l w
    = (mkWorld (trace w ++ evs)%list
               (clock w + length (exported_groups ic l)),
       Return tt)
    /\ map gm_name (written_docs evs)
       = map (fun kc => c_name (snd kc)) (exported_groups ic l).
Proof.
  induction l as [|[key c] l IH]; intros Hok w.
  - exists []. simpl. rewrite app_nil_r, Nat.add_0_r, world_eta. auto.
  - assert (Hl : forall kc, In kc l -> skipped ic (snd kc) = false ->
              c_name (snd kc) <> None
              /\ c_members (snd kc) <> []
              /\ Forall (fun sid =>
                           Dict.get Py.ostr_eqb (Some sid)
                                    (index_by_serviceId contacts) <> None)
                        (c_members (snd kc))).
    { intros kc Hkc. apply Hok. now right. }
    cbn [forM_]. unfold bind, export_body at 1, exported_groups.
    cbn [filter snd].
    destruct (skipped ic c) eqn:Eskip; cbn [negb].
    + unfold ret at 1. apply (IH Hl w).
    + destruct (Hok (key, c) (or_introl eq_refl) Eskip) as (Hn & Hms & Hres).
      simpl in Hn, Hms, Hres.
      destruct (c_name c) as [n|] eqn:En; [|congruence].
      rewrite (@export_group_eq now contacts owner d n key c w En).
      destruct (resolve_members_all _ Hres) as (members & Hmem & Hlen).
      rewrite Hmem.
      destruct members as [|m ms].
      { destruct (c_members c); [congruence|discriminate]. }
      destruct (IH Hl (mkWorld (trace w
                  ++ group_prelude (pdiv d n)
                       (group_doc contacts owner key c (now (clock w))
                                  (m :: ms))
                  ++ [group_table (pdiv d n)
                        (group_doc contacts owner key c (now (clock w))
                                   (m :: ms))])%list
                 (S (clock w)))) as (evs2 & Hrun & Hdocs).
      eexists. split.
      * rewrite Hrun. cbn [trace clock]. rewrite <- !app_assoc.
        f_equal. f_equal. cbn [length]. unfold exported_groups. lia.
      * rewrite !written_docs_app. simpl. unfold exported_groups in Hdocs.
        rewrite Hdocs, En. reflexivity.
Qed.

(** X19. When a destination is given and every group the export goes
    through has a name, at least one member, and only member ids that some
    contact carries as its service id, the export returns; it writes one
    document for each of these groups, in the order of the contacts, and
    reads the clock once for each. *)
Theorem export_succeeds
    (now : nat -> string) d contacts owner ic w :
  (forall kc, In kc contacts -> skipped ic (snd kc) = false ->
     c_name (snd kc) <> None
     /\ c_members (snd kc) <> []
     /\ Forall (fun sid =>
                  exists kc', In kc' contacts
                              /\ c_serviceId (snd kc') = Some sid)
               (c_members (snd kc))) ->
  snd (export_channel_metadata now (Some d) contacts owner ic w) = Return tt
  /\ map gm_name
         (written_docs
            (emitted (export_channel_metadata now (Some d) contacts owner ic)
                     w))
     = map (fun kc => c_name (snd kc)) (exported_groups ic contacts)
  /\ clock (fst (export_channel_metadata now (Some d) contacts owner ic w))
     = clock w + length (exported_groups ic contacts).
Proof.
  intros Hok.
  destruct (@export_all_succeed now d contacts owner ic contacts) with (w := w)
    as (evs & Hrun & Hdocs).
  { intros kc Hkc Hskip. destruct (Hok kc Hkc Hskip) as (Hn & Hms & Hres).
    repeat split; auto.
    eapply Forall_impl; [|exact Hres].
    intros sid (kc' & Hkc' & Hsid) Hnone.
    apply (proj1 (index_lookup_none contacts sid) Hnone kc' Hkc' Hsid). }
  change (export_channel_metadata now (Some d) contacts owner ic)
    with (forM_ (export_body now (Some d) contacts owner ic) contacts).
  erewrite emitted_app; [|rewrite Hrun; reflexivity].
  rewrite Hrun. auto.
Qed.

Lemma export_succeeds_witness :
  snd (export_channel_metadata sample_now (Some ["out"]) scenario_contacts
                               owner_O None initial) = Return tt
  /\ map gm_name
         (written_docs
            (emitted (export_channel_metadata sample_now (Some ["out"])
                        scenario_contacts owner_O None) initial))
     = map (fun kc => c_name (snd kc))
           (exported_groups None scenario_contacts)
  /\ clock (fst (export_channel_metadata sample_now (Some ["out"])
                   scenario_contacts owner_O None initial))
     = clock initial + length (exported_groups None scenario_contacts).
Proof.
  apply (@export_succeeds sample_now ["out"] scenario_contacts owner_O None
           initial).
  intros kc [<-|[<-|[<-|[<-|[<-|[<-|[]]]]]]]; try discriminate; intros _;
    (split; [discriminate|]); (split; [discriminate|]);
    repeat constructor.
  - exists ("o", owner_O). split; [simpl; tauto|reflexivity].
  - exists ("a", person "a" "sA" "Ann"). split; [simpl; tauto|reflexivity].
  - exists ("b", person "b" "sB" "Bob"). split; [simpl; tauto|reflexivity].
  - exists ("a", person "a" "sA" "Ann"). split; [simpl; tauto|reflexivity].
  - exists ("c", person "c" "sC" "Cy"). split; [simpl; tauto|reflexivity].
  - exists ("o", owner_O). split; [simpl; tauto|reflexivity].
Defined.

(** ** The checks of [main] before the data is fetched *)

(** X20. When [main] has neither a destination nor [--list-chats], or when
    the source directory holds no [config.json], it prints one message (the
    help text in the first case) and exits with code 1; the database is not
    opened. *)
Theorem main_preflight_exits
    (json_loads : string -> outcome json)
    (get_key : path -> option string -> outcome string)
    (now : nat -> string) (help : string) (source_location : path)
    (absolute : path -> path) (is_file : path -> bool)
    (render : Args -> path -> Convos -> Contacts -> M unit)
    db a w :
  reaches_fetch source_location absolute is_file a = false ->
  main json_loads get_key now help source_location absolute is_file render
       db a w
  = (mkWorld (trace w
              ++ [EvSecho
                    (if (match a_dest a with Some _ => true | None => false end
                         || a_list_chats a)
                     then "Error: config.json not found in directory "
                          ++ String.concat "/"
                               (source_dir_of source_location absolute a)
                     else help)])%list
             (clock w),
     Raised (Exit 1)).
Proof.
  unfold reaches_fetch, main, source_dir_of. intros H.
  destruct (match a_dest a with Some _ => true | None => false end
            || a_list_chats a); simpl in *.
  - rewrite H. reflexivity.
  - reflexivity.
Qed.

Lemma main_preflight_exits_witness :
  main sample_loads sample_get_key sample_now "usage" ["src"]
       sample_absolute sample_is_file sample_render two_message_store
       no_dest_args initial
  = (mkWorld (trace initial ++ [EvSecho "usage"])%list (clock initial),
     Raised (Exit 1)).
Proof.
  apply (@main_preflight_exits sample_loads sample_get_key sample_now "usage"
           ["src"] sample_absolute sample_is_file sample_render
           two_message_store no_dest_args initial).
  reflexivity.
Defined.

(** ** The listing of the chats *)

Lemma insert_sorted_perm x l : Permutation (x :: l) (Py.insert_sorted x l).
Proof.
  induction l as [|y l IH]; simpl; [reflexivity|].
  destruct (String.leb x y); [reflexivity|].
  rewrite perm_swap. now constructor.
Qed.

Lemma insert_sorted_sorted x l :
  Sorted (fun a b => String.leb a b = true) l ->
  Sorted (fun a b => String.leb a b = true) (Py.insert_sorted x l).
Proof.
  induction 1 as [|y l Hl IH Hy]; simpl.
  - repeat constructor.
  - destruct (String.leb x y) eqn:E.
    + repeat constructor; assumption.
    + constructor; [assumption|].
      assert (Hyx : String.leb y x = true).
      { destruct (String.leb_total x y); congruence. }
      destruct l as [|z l]; simpl.
      * now constructor.
      * destruct (String.leb x z); constructor; [assumption|].
        now inversion Hy.
Qed.

Lemma flat_map_map {A B C} (f : B -> list C) (g : A -> B) l :
  flat_map f (map g l) = flat_map (fun x => f (g x)) l.
Proof. induction l; simpl; congruence. Qed.

(** X21. The names listed by [--list-chats] are the names of the contacts
    that have one, each as often as contacts carry it, in non-decreasing
    order; contacts without a name are left out. *)
Theorem chat_names_sorted (contacts : Contacts) :
  Sorted (fun a b => String.leb a b = true) (chat_names contacts)
  /\ Permutation (flat_map (fun kc => name_list (snd kc)) contacts)
                 (chat_names contacts).
Proof.
  unfold chat_names, Dict.values, Py.sorted. split.
  - induction (flat_map _ (map snd contacts)) as [|x l IH]; simpl.
    + constructor.
    + now apply insert_sorted_sorted.
  - rewrite flat_map_map. unfold name_list.
    induction (flat_map _ contacts) as [|x l IH]; simpl.
    + constructor.
    + rewrite <- insert_sorted_perm. now constructor.
Qed.

(** ** When [fetch_data] returns *)

Lemma row_ok_update json_loads b k f convos r :
  row_ok json_loads b (Dict.update String.eqb k f convos) r
  <-> row_ok json_loads b convos r.
Proof. unfold row_ok. now rewrite accepts_update. Qed.

Lemma ingest_returns_iff json_loads b rows : forall convos,
  (exists c', run (foldM (ingest_row json_loads b) rows convos) = Return c')
  <-> Forall (row_ok json_loads b convos) rows.
Proof.
  induction rows as [|r rows IH]; intros convos.
  - split; [constructor|]. intros _. now exists convos.
  - rewrite run_ingest_cons. split.
    + intros [c' H].
      destruct (run (ingest_row json_loads b r convos)) as [c1|e] eqn:E;
        [|discriminate].
      assert (Hrow : row_ok json_loads b convos r).
      { rewrite ingest_row_cases in E. unfold row_ok.
        destruct (decode_column json_loads (mr_json r)) as [j|];
          [|discriminate].
        exists j. split; [reflexivity|]. intros Hacc.
        unfold accepts in Hacc.
        destruct (mr_conversationId r) as [cid|] eqn:Ecid; [|discriminate].
        fold (accepts b convos r) in E.
        assert (Ha : accepts b convos r = true)
          by (unfold accepts; now rewrite Ecid).
        rewrite Ha in E. destruct j; try discriminate. now exists fields. }
      constructor; [assumption|].
      assert (Hrest : Forall (row_ok json_loads b c1) rows)
        by (apply IH; now exists c').
      destruct (@ingest_row_step_decoded json_loads b r convos c1 E)
        as [[_ ->]|[_ (cid & fs & _ & _ & ->)]]; [assumption|].
      eapply Forall_impl; [|exact Hrest].
      intros r'. apply row_ok_update.
    + intros Hall. inversion Hall as [|? ? (j & Hdec & Hobj) Hrest]; subst.
      assert (E : exists c1, run (ingest_row json_loads b r convos)
                             = Return c1).
      { rewrite ingest_row_cases, Hdec.
        destruct (mr_conversationId r) as [cid|]; [|eauto].
        destruct (accepts b convos r); [|eauto].
        destruct (Hobj eq_refl) as [fs ->]. eauto. }
      destruct E as [c1 E]. rewrite E. apply IH.
      destruct (@ingest_row_step_decoded json_loads b r convos c1 E)
        as [[_ ->]|[_ (cid & fs & _ & _ & ->)]]; [assumption|].
      eapply Forall_impl; [|exact Hrest].
      intros r'. apply row_ok_update.
Qed.


Lemma load_all_selected_in chats rows r : forall acc : Contacts * Convos,
  In r rows -> chat_selected chats (chats_list_of chats) r = true ->
  In (cr_id r)
     (map fst (snd (fold_left
                      (fun acc r => load_step chats (chats_list_of chats)
                                              r acc) rows acc))).
Proof.
  assert (Hkeep : forall rows (acc : Contacts * Convos) k,
            In k (map fst (snd acc)) ->
            In k (map fst (snd (fold_left
                                  (fun acc r =>
                                     load_step chats (chats_list_of chats)
                                               r acc) rows acc)))).
  { clear. induction rows as [|r rows IH]; intros [contacts convos] k Hk;
      cbn [fold_left]; [assumption|].
    apply IH. simpl in *. destruct (chat_selected _ _ r); [|assumption].
    now apply set_keys_incl. }
  induction rows as [|r0 rows IH]; intros [contacts convos] Hin Hsel;
    [destruct Hin|]. cbn [fold_left].
  destruct Hin as [->|Hin].
  - apply Hkeep. simpl. rewrite Hsel.
    apply (set_keys_new String.eqb String.eqb_eq).
  - now apply IH.
Qed.

(** X23. With "include empty" true, the conversation of every row that the
    chat filter selects is returned, with or without messages. *)
Theorem selected_conversation_returned
    (json_loads : string -> outcome json)
    (get_key : path -> option string -> outcome string)
    db source_dir password key chats b w w' convos contacts r :
  fetch_data json_loads get_key db source_dir password key chats true b w
  = (w', Return (convos, contacts)) ->
  In r (conversations db) ->
  chat_selected chats (chats_list_of chats) r = true ->
  In (cr_id r) (map fst convos).
Proof.
  intros Hfetch Hin Hsel.
  destruct (@fetch_data_returned _ _ _ _ _ _ _ _ _ _ _ _ _ Hfetch)
    as (_ & c' & Hrun & ->).
  unfold prune. simpl. rewrite (ingest_keys _ _ _ _ Hrun).
  now apply load_all_selected_in.
Qed.

Lemma selected_conversation_returned_witness :
  In (cr_id (conv_row (Some "group") "c2" (Some "G1") None))
     (map fst [("c2", @nil RawMessage)]).
Proof.
  apply (@selected_conversation_returned sample_loads sample_get_key
           two_message_store ["src"] None (Some "00ff") "G1" false initial
           (mkWorld (session_events ["src"] "00ff"
                       (conversations two_message_store)) 0)
           [("c2", [])]
           (fst (load_all "G1" (conversations two_message_store)))
           (conv_row (Some "group") "c2" (Some "G1") None)).
  - reflexivity.
  - right. left. reflexivity.
  - reflexivity.
Defined.

(** ** The first row that stops the second loop *)

(** Rows that do not stop the loop leave the exclusion rules as they were
    and hand the loop over to the rows that follow. *)
Lemma ingest_after_ok json_loads b pre rest convos :
  Forall (row_ok json_loads b convos) pre ->
  exists c1,
    (forall r, accepts b c1 r = accepts b convos r)
    /\ run (foldM (ingest_row json_loads b) (pre ++ rest) convos)
       = run (foldM (ingest_row json_loads b) rest c1).
Proof.
  intros Hpre. apply ingest_returns_iff in Hpre. destruct Hpre as [c1 Hc1].
  exists c1. split.
  - intros r. apply (ingest_accepts _ _ _ _ r Hc1).
  - now rewrite run_ingest_app, Hc1.
Qed.

Lemma undecodable_set_id json_loads id r e :
  decode_column json_loads (mr_json r) = Raised e ->
  undecodable json_loads (set_id id r) = true.
Proof. unfold undecodable. simpl. now intros ->. Qed.

Lemma fetch_raises_on_undecodable
    (json_loads : string -> outcome json)
    (get_key : path -> option string -> outcome string)
    db source_dir password key chats ie b w r :
  In r (messages db) -> undecodable json_loads r = true ->
  exists e,
    snd (fetch_data json_loads get_key db source_dir password key chats ie
                    b w) = Raised e.
Proof.
  intros Hin Hbad. rewrite fetch_data_unfold.
  destruct (resolved get_key source_dir password key) as [k|e]; simpl.
  - destruct (@ingest_fails json_loads b (messages db)
                (snd (load_all chats (conversations db))) r Hin Hbad)
      as [e ->].
    now exists e.
  - now exists (Exit 1).
Qed.

(** C3, as the code has it. A message row whose payload does not decode
    makes [fetch_data] raise, in every case. When the key is given or
    recovered and no earlier row stops the loop (the payload of every
    earlier row decodes, and to an object when the three exclusion rules
    keep that row), the exception is the one of the decoder for the payload
    of the row; when the key recovery fails it is [Exit 1]. The exception
    depends on the payload column alone: the same store with any other id on
    that row raises the same exception. *)
Theorem malformed_payload_raises_decoder_error
    (json_loads : string -> outcome json)
    (get_key : path -> option string -> outcome string)
    conv_rows source_dir password key chats ie b w pre r post e id :
  decode_column json_loads (mr_json r) = Raised e ->
  (exists e',
     snd (fetch_data json_loads get_key
                     (mkStore conv_rows (pre ++ set_id id r :: post))
                     source_dir password key chats ie b w) = Raised e')
  /\ (forall k,
        resolved get_key source_dir password key = Return k ->
        Forall (row_ok json_loads b (snd (load_all chats conv_rows))) pre ->
        snd (fetch_data json_loads get_key
                        (mkStore conv_rows (pre ++ set_id id r :: post))
                        source_dir password key chats ie b w) = Raised e)
  /\ (forall e0,
        resolved get_key source_dir password key = Raised e0 ->
        snd (fetch_data json_loads get_key
                        (mkStore conv_rows (pre ++ set_id id r :: post))
                        source_dir password key chats ie b w)
        = Raised (Exit 1)).
Proof.
  intros Hbad. split; [|split].
  - apply (@fetch_raises_on_undecodable json_loads get_key
             (mkStore conv_rows (pre ++ set_id id r :: post)) source_dir
             password key chats ie b w (set_id id r)).
    + simpl. apply in_or_app. right. now left.
    + now apply (undecodable_set_id json_loads id r Hbad).
  - intros k Hkey Hpre. rewrite fetch_data_unfold, Hkey. simpl.
    destruct (@ingest_after_ok json_loads b pre (set_id id r :: post) _ Hpre)
      as (c1 & _ & ->).
    rewrite run_ingest_cons.
    now rewrite (@ingest_row_undecodable json_loads b (set_id id r) c1 e Hbad).
  - intros e0 Hkey. rewrite fetch_data_unfold, Hkey. reflexivity.
Qed.

Lemma malformed_payload_raises_decoder_error_witness :
  snd (fetch_data sample_loads sample_get_key
                  (mkStore (conversations (sample_store []))
                           ([array_row_dropped; timer_row]
                            ++ set_id "m9" (malformed_row "m2") :: []))
                  ["src"] None (Some "00ff") "" false false initial)
  = Raised (JSONDecodeError "Expecting value" "not json" 0).
Proof.
  refine (proj1 (proj2
            (@malformed_payload_raises_decoder_error sample_loads
               sample_get_key (conversations (sample_store [])) ["src"] None
               (Some "00ff") "" false false initial
               [array_row_dropped; timer_row] (malformed_row "m2") []
               (JSONDecodeError "Expecting value" "not json" 0) "m9" _))
            "00ff" _ _).
  - reflexivity.
  - reflexivity.
  - repeat constructor.
    + exists (JArr []). split; [reflexivity|discriminate].
    + exists (JObj []). split; [reflexivity|]. intros _. now exists [].
Defined.

(** X9. When the key is given or recovered and no earlier row stops the
    loop (the payload of every earlier row decodes, and to an object when
    the three exclusion rules keep that row), a row that passes the three
    exclusion rules and whose payload is valid JSON but not an object makes
    [fetch_data] raise an [AttributeError]: the decoded value has no
    [get]. *)
Theorem non_object_payload_raises
    (json_loads : string -> outcome json)
    (get_key : path -> option string -> outcome string)
    db source_dir password key chats ie b w k0 pre r post j :
  resolved get_key source_dir password key = Return k0 ->
  messages db = (pre ++ r :: post)%list ->
  Forall (row_ok json_loads b (snd (load_all chats (conversations db))))
         pre ->
  decode_column json_loads (mr_json r) = Return j ->
  (forall fields, j <> JObj fields) ->
  accepts b (snd (load_all chats (conversations db))) r = true ->
  snd (fetch_data json_loads get_key db source_dir password key chats ie b w)
  = Raised (AttributeError ("'" ++ py_type_name j
                            ++ "' object has no attribute 'get'")).
Proof.
  intros Hkey Hrows Hpre Hdec Hj Hacc.
  rewrite fetch_data_unfold, Hkey, Hrows. simpl.
  destruct (@ingest_after_ok json_loads b pre (r :: post) _ Hpre)
    as (c1 & Hsame & ->).
  rewrite run_ingest_cons, ingest_row_cases, Hdec, Hsame, Hacc.
  unfold accepts in Hacc.
  destruct (mr_conversationId r) as [cid|]; [|discriminate].
  destruct j; try reflexivity. exfalso. now apply (Hj fields).
Qed.

Lemma non_object_payload_raises_witness :
  snd (fetch_data sample_loads sample_get_key
                  (sample_store [array_row_dropped; sent_row "m1" 10;
                                 array_row])
                  ["src"] None (Some "00ff") "" false false initial)
  = Raised (AttributeError ("'" ++ py_type_name (JArr [])
                            ++ "' object has no attribute 'get'")).
Proof.
  apply (@non_object_payload_raises sample_loads sample_get_key
           (sample_store [array_row_dropped; sent_row "m1" 10; array_row])
           ["src"] None (Some "00ff") "" false false initial "00ff"
           [array_row_dropped; sent_row "m1" 10] array_row [] (JArr [])).
  - reflexivity.
  - reflexivity.
  - repeat constructor.
    + exists (JArr []). split; [reflexivity|discriminate].
    + exists (JObj []). split; [reflexivity|]. intros _. now exists [].
  - reflexivity.
  - discriminate.
  - reflexivity.
Defined.

(** X24. A message row whose payload column is NULL makes [fetch_data]
    raise, in every case. When the key is given or recovered and no earlier
    row stops the loop (the payload of every earlier row decodes, and to an
    object when the three exclusion rules keep that row), the exception is a
    [TypeError], since [json.loads] is given [None], whatever the exclusion
    rules say about the row. *)
Theorem null_payload_raises_type_error
    (json_loads : string -> outcome json)
    (get_key : path -> option string -> outcome string)
    db source_dir password key chats ie b w pre r post :
  messages db = (pre ++ r :: post)%list ->
  mr_json r = None ->
  (exists e,
     snd (fetch_data json_loads get_key db source_dir password key chats ie
                     b w) = Raised e)
  /\ (forall k0,
        resolved get_key source_dir password key = Return k0 ->
        Forall (row_ok json_loads b (snd (load_all chats (conversations db))))
               pre ->
        snd (fetch_data json_loads get_key db source_dir password key chats
                        ie b w)
        = Raised (TypeError
            "the JSON object must be str, bytes or bytearray, not NoneType")).
Proof.
  intros Hrows Hnull. split.
  - apply (@fetch_raises_on_undecodable json_loads get_key db source_dir
             password key chats ie b w r).
    + rewrite Hrows. apply in_or_app. right. now left.
    + unfold undecodable. now rewrite Hnull.
  - intros k0 Hkey Hpre. rewrite fetch_data_unfold, Hkey, Hrows. simpl.
    destruct (@ingest_after_ok json_loads b pre (r :: post) _ Hpre)
      as (c1 & _ & ->).
    rewrite run_ingest_cons.
    erewrite ingest_row_undecodable; [reflexivity|].
    now rewrite Hnull.
Qed.

Lemma null_payload_raises_type_error_witness :
  snd (fetch_data sample_loads sample_get_key
                  (sample_store [array_row_dropped; sent_row "m1" 10;
                                 null_payload_row])
                  ["src"] None (Some "00ff") "" false false initial)
  = Raised (TypeError
      "the JSON object must be str, bytes or bytearray, not NoneType").
Proof.
  refine (proj2
            (@null_payload_raises_type_error sample_loads sample_get_key
               (sample_store [array_row_dropped; sent_row "m1" 10;
                              null_payload_row])
               ["src"] None (Some "00ff") "" false false initial
               [array_row_dropped; sent_row "m1" 10] null_payload_row [] _ _)
            "00ff" _ _).
  - reflexivity.
  - reflexivity.
  - reflexivity.
  - repeat constructor.
    + exists (JArr []). split; [reflexivity|discriminate].
    + exists (JObj []). split; [reflexivity|]. intros _. now exists [].
Defined.
